(** * A shallow embedding of the hybrid circuit breaker

    Source: [src/circuit_breaker/circuit_breaker.py], class [CircuitBreaker].

    Conventions of the embedding.
    - Python [int] is [Z].  Timestamps returned by [time.time()] are
      Python floats; they are idealised as exact rationals [Q].
    - The breaker object and the ambient world (wall clock, random
      generator) are threaded explicitly through a small state monad.
    - The wrapped callable is opaque: it is a function on the world that
      either returns a value or raises an exception object.
    - [**] is embedded by [Z.pow], which agrees with Python on
      non-negative exponents.  The exponent of the source is at most
      [max_exponential_retries] and positive otherwise, so the embedding
      covers breakers with [0 <= max_exponential_retries]; for a negative
      cap Python leaves the integers (float result, [ZeroDivisionError]
      at base 0) and the statements below assume the cap non-negative
      wherever the timeout is computed.
    - [int(timeout_minutes * 0.1)] is embedded by truncating division by
      ten, which is what the double-precision product yields for the
      timeouts of any practical configuration (below 2^50). *)

From Stdlib Require Import ZArith QArith Bool String List Lia Lqa DecimalString.
Import ListNotations.

Local Open Scope Z_scope.

(** ** Data model *)

Inductive CircuitBreakerState : Type :=
| CLOSED
| OPEN
| HALF_OPEN.

(** [CircuitBreakerState.value] *)
Definition state_value (st : CircuitBreakerState) : string :=
  match st with
  | CLOSED => "closed"
  | OPEN => "open"
  | HALF_OPEN => "half_open"
  end.

Definition state_eqb (a b : CircuitBreakerState) : bool :=
  match a, b with
  | CLOSED, CLOSED | OPEN, OPEN | HALF_OPEN, HALF_OPEN => true
  | _, _ => false
  end.

(** The attributes assigned by [__init__]. *)
Record CircuitBreaker : Type := mkCircuitBreaker {
  failure_threshold : Z;
  base_interval_minutes : Z;
  fixed_interval_retries : Z;
  max_exponential_retries : Z;
  jitter_enabled : bool;
  failure_count : Z;
  consecutive_circuit_breaks : Z;
  last_failure_time : option Q;
  state : CircuitBreakerState
}.

(** [CircuitBreaker.__init__] *)
Definition init (threshold base fixed max_exp : Z) (jitter : bool) : CircuitBreaker :=
  {| failure_threshold := threshold;
     base_interval_minutes := base;
     fixed_interval_retries := fixed;
     max_exponential_retries := max_exp;
     jitter_enabled := jitter;
     failure_count := 0;
     consecutive_circuit_breaks := 0;
     last_failure_time := None;
     state := CLOSED |}.

(** [CircuitBreaker()] with the default arguments. *)
Definition init_default : CircuitBreaker := init 5 5 3 5 true.

(** Attribute assignment, one setter per attribute the methods write. *)
Definition set_failure_count (n : Z) (cb : CircuitBreaker) : CircuitBreaker :=
  {| failure_threshold := failure_threshold cb;
     base_interval_minutes := base_interval_minutes cb;
     fixed_interval_retries := fixed_interval_retries cb;
     max_exponential_retries := max_exponential_retries cb;
     jitter_enabled := jitter_enabled cb;
     failure_count := n;
     consecutive_circuit_breaks := consecutive_circuit_breaks cb;
     last_failure_time := last_failure_time cb;
     state := state cb |}.

Definition set_consecutive_circuit_breaks (n : Z) (cb : CircuitBreaker) : CircuitBreaker :=
  {| failure_threshold := failure_threshold cb;
     base_interval_minutes := base_interval_minutes cb;
     fixed_interval_retries := fixed_interval_retries cb;
     max_exponential_retries := max_exponential_retries cb;
     jitter_enabled := jitter_enabled cb;
     failure_count := failure_count cb;
     consecutive_circuit_breaks := n;
     last_failure_time := last_failure_time cb;
     state := state cb |}.

Definition set_last_failure_time (t : option Q) (cb : CircuitBreaker) : CircuitBreaker :=
  {| failure_threshold := failure_threshold cb;
     base_interval_minutes := base_interval_minutes cb;
     fixed_interval_retries := fixed_interval_retries cb;
     max_exponential_retries := max_exponential_retries cb;
     jitter_enabled := jitter_enabled cb;
     failure_count := failure_count cb;
     consecutive_circuit_breaks := consecutive_circuit_breaks cb;
     last_failure_time := t;
     state := state cb |}.

Definition set_state (st : CircuitBreakerState) (cb : CircuitBreaker) : CircuitBreaker :=
  {| failure_threshold := failure_threshold cb;
     base_interval_minutes := base_interval_minutes cb;
     fixed_interval_retries := fixed_interval_retries cb;
     max_exponential_retries := max_exponential_retries cb;
     jitter_enabled := jitter_enabled cb;
     failure_count := failure_count cb;
     consecutive_circuit_breaks := consecutive_circuit_breaks cb;
     last_failure_time := last_failure_time cb;
     state := st |}.

(** Used only to state properties: the same breaker with the jitter
    switch in a given position. *)
Definition with_jitter (j : bool) (cb : CircuitBreaker) : CircuitBreaker :=
  {| failure_threshold := failure_threshold cb;
     base_interval_minutes := base_interval_minutes cb;
     fixed_interval_retries := fixed_interval_retries cb;
     max_exponential_retries := max_exponential_retries cb;
     jitter_enabled := j;
     failure_count := failure_count cb;
     consecutive_circuit_breaks := consecutive_circuit_breaks cb;
     last_failure_time := last_failure_time cb;
     state := state cb |}.

(** ** The ambient world

    [clock n] is the value the [n]-th coming call of [time.time()]
    returns; [entropy n] is the raw output the random generator gives to
    the [n]-th coming draw.  Reading either one advances it. *)
Record World : Type := mkWorld {
  clock : nat -> Q;
  entropy : nat -> Z
}.

Definition tail {A : Type} (f : nat -> A) : nat -> A := fun n => f (S n).

(** The breaker object together with the world it runs in. *)
Record Sys : Type := mkSys {
  self : CircuitBreaker;
  env : World
}.

(** ** State monad *)

Definition M (A : Type) : Type := Sys -> A * Sys.

Definition ret {A : Type} (a : A) : M A := fun s => (a, s).

Definition bind {A B : Type} (m : M A) (k : A -> M B) : M B :=
  fun s => let (a, s') := m s in k a s'.

Declare Scope py_scope.
Delimit Scope py_scope with py.
Notation "x <- m ;; k" := (bind m (fun x => k))
  (at level 61, m at next level, right associativity) : py_scope.
Notation "m ;;; k" := (bind m (fun _ => k))
  (at level 61, right associativity) : py_scope.
Local Open Scope py_scope.

Definition get_self : M CircuitBreaker := fun s => (self s, s).

Definition update_self (f : CircuitBreaker -> CircuitBreaker) : M unit :=
  fun s => (tt, {| self := f (self s); env := env s |}).

(** [time.time()] *)
Definition time_time : M Q :=
  fun s => (clock (env s) 0%nat,
            {| self := self s;
               env := {| clock := tail (clock (env s)); entropy := entropy (env s) |} |}).

(** [random.randint(a, b)]: an integer [n] with [a <= n <= b], obtained
    from the next raw output of the generator.  The source only calls it
    with [a = -b] and [1 <= b]. *)
Definition random_randint (a b : Z) : M Z :=
  fun s => (a + entropy (env s) 0%nat mod (b - a + 1),
            {| self := self s;
               env := {| clock := clock (env s); entropy := tail (entropy (env s)) |} |}).

(** [int(n * 0.1)]: the product truncated towards zero. *)
Definition int_tenth (n : Z) : Z := Z.quot n 10.

(** [str(n)] for an [int], as an f-string formats it. *)
Definition str (n : Z) : string := NilZero.string_of_int (Z.to_int n).

(** ** Methods that need nothing of the wrapped callable *)

(** [_get_current_recovery_timeout_minutes] *)
Definition _get_current_recovery_timeout_minutes : M Z :=
  cb <- get_self ;;
  if consecutive_circuit_breaks cb =? 0 then
    ret (base_interval_minutes cb)
  else
    let timeout_minutes :=
      if consecutive_circuit_breaks cb <=? fixed_interval_retries cb then
        base_interval_minutes cb
      else
        let exponential_attempt :=
          consecutive_circuit_breaks cb - fixed_interval_retries cb in
        let exponential_attempt :=
          if exponential_attempt >? max_exponential_retries cb
          then max_exponential_retries cb
          else exponential_attempt in
        base_interval_minutes cb * (base_interval_minutes cb ^ exponential_attempt)
    in
    if jitter_enabled cb then
      let jitter_range := Z.max 1 (int_tenth timeout_minutes) in
      jitter <- random_randint (- jitter_range) jitter_range ;;
      ret (Z.max 1 (timeout_minutes + jitter))
    else
      ret timeout_minutes.

(** [_should_attempt_reset] *)
Definition _should_attempt_reset : M bool :=
  cb <- get_self ;;
  match last_failure_time cb with
  | None => ret true
  | Some last =>
      current_timeout_minutes <- _get_current_recovery_timeout_minutes ;;
      let current_timeout_seconds := current_timeout_minutes * 60 in
      now <- time_time ;;
      ret (Qle_bool (inject_Z current_timeout_seconds) (now - last))
  end.

(** [_on_success] *)
Definition _on_success : M unit :=
  update_self (set_failure_count 0) ;;;
  update_self (set_consecutive_circuit_breaks 0) ;;;
  update_self (set_state CLOSED).

(** [_on_failure] *)
Definition _on_failure : M unit :=
  update_self (fun cb => set_failure_count (failure_count cb + 1) cb) ;;;
  now <- time_time ;;
  update_self (set_last_failure_time (Some now)) ;;;
  cb <- get_self ;;
  if failure_count cb >=? failure_threshold cb then
    (if state_eqb (state cb) HALF_OPEN then
       update_self (fun cb => set_consecutive_circuit_breaks
                                (consecutive_circuit_breaks cb + 1) cb)
     else
       update_self (set_consecutive_circuit_breaks 1)) ;;;
    update_self (set_state OPEN)
  else
    ret tt.

(** The dictionary returned by [get_status_info], as a record with one
    field per key; [status_config] is the nested ["config"] dictionary. *)
Record ConfigInfo : Type := mkConfigInfo {
  config_base_interval_minutes : Z;
  config_fixed_interval_retries : Z;
  config_max_exponential_retries : Z;
  config_jitter_enabled : bool
}.

Record StatusInfo : Type := mkStatusInfo {
  status_state : string;
  status_failure_count : Z;
  status_consecutive_circuit_breaks : Z;
  status_retry_phase : string;
  status_current_recovery_timeout_minutes : Z;
  status_time_until_retry_minutes : option Q;
  status_config : ConfigInfo
}.

(** Truth value of [self.last_failure_time]: [None] and [0.0] are false. *)
Definition truthy (t : option Q) : bool :=
  match t with
  | None => false
  | Some q => negb (Qeq_bool q 0)
  end.

(** [max(0, x)] on a float [x]: [x] when it is greater than 0, else 0. *)
Definition max0 (x : Q) : Q := if Qle_bool x 0 then 0%Q else x.

(** The retry phase label of [get_status_info]. *)
Definition retry_phase_of (cb : CircuitBreaker) : string :=
  if consecutive_circuit_breaks cb >? 0 then
    if consecutive_circuit_breaks cb <=? fixed_interval_retries cb then
      ("fixed-interval (attempt " ++ str (consecutive_circuit_breaks cb) ++ "/"
         ++ str (fixed_interval_retries cb) ++ ")")%string
    else
      let exponential_attempt :=
        Z.min (consecutive_circuit_breaks cb - fixed_interval_retries cb)
              (max_exponential_retries cb) in
      ("exponential-interval (attempt " ++ str exponential_attempt ++ "/"
         ++ str (max_exponential_retries cb) ++ ")")%string
  else "closed"%string.

(** [get_status_info] *)
Definition get_status_info : M StatusInfo :=
  current_timeout_minutes <- _get_current_recovery_timeout_minutes ;;
  cb <- get_self ;;
  time_until_retry_minutes <-
    (if state_eqb (state cb) OPEN && truthy (last_failure_time cb) then
       now <- time_time ;;
       let elapsed_seconds := (now - match last_failure_time cb with
                                     | Some last => last
                                     | None => 0
                                     end)%Q in
       let elapsed_minutes := (elapsed_seconds / 60)%Q in
       ret (Some (max0 (inject_Z current_timeout_minutes - elapsed_minutes)%Q))
     else ret None) ;;
  cb <- get_self ;;
  ret {| status_state := state_value (state cb);
         status_failure_count := failure_count cb;
         status_consecutive_circuit_breaks := consecutive_circuit_breaks cb;
         status_retry_phase := retry_phase_of cb;
         status_current_recovery_timeout_minutes := current_timeout_minutes;
         status_time_until_retry_minutes := time_until_retry_minutes;
         status_config :=
           {| config_base_interval_minutes := base_interval_minutes cb;
              config_fixed_interval_retries := fixed_interval_retries cb;
              config_max_exponential_retries := max_exponential_retries cb;
              config_jitter_enabled := jitter_enabled cb |} |}.

(** A call made in state [s] comes before the recovery timeout has
    elapsed: the breaker has a last failure time, and the clock read by
    the reset check is less than the freshly computed timeout past it. *)
Definition too_early (s : Sys) : Prop :=
  match last_failure_time (self s) with
  | None => False
  | Some last =>
      let (current_timeout_minutes, s1) := _get_current_recovery_timeout_minutes s in
      (clock (env s1) 0%nat - last < inject_Z (current_timeout_minutes * 60))%Q
  end.

(** ** The call-guarding method

    [Value] is the type of what the wrapped callable returns and [Exc]
    the type of the exception objects it raises.  [is_Exception e] is
    [isinstance(e, Exception)]: an object outside [Exception] (such as
    [KeyboardInterrupt]) passes the [except Exception] clause untouched.
    [Exception msg] is the object built by [Exception(msg)]. *)
Section Call.

Variables Value Exc : Type.
Variable is_Exception : Exc -> bool.
Variable Exception : string -> Exc.

Inductive Outcome : Type :=
| Return (v : Value)
| Raise (e : Exc).

(** A callable with its arguments already supplied: it may read the
    clock and the random generator and cannot reach the breaker. *)
Definition Callable : Type := World -> Outcome * World.

(** The invocation of the wrapped callable inside the [try]. *)
Definition invoke (func : Callable) : M Outcome :=
  fun s => let (r, w) := func (env s) in (r, {| self := self s; env := w |}).

Definition open_message (current_timeout_minutes : Z) : string :=
  ("Circuit breaker is OPEN. Service unavailable. Next retry in "
     ++ str current_timeout_minutes ++ " minutes.")%string.

(** The [OPEN] branch that opens [call]: [Some e] when the method leaves
    through [raise e] before the [try], [None] when control reaches the
    [try]. *)
Definition gate : M (option Exc) :=
  cb <- get_self ;;
  if state_eqb (state cb) OPEN then
    attempt <- _should_attempt_reset ;;
    if attempt then
      update_self (set_state HALF_OPEN) ;;; ret None
    else
      current_timeout_minutes <- _get_current_recovery_timeout_minutes ;;
      ret (Some (Exception (open_message current_timeout_minutes)))
  else ret None.

(** The [try] statement of [call]: [except Exception as e] handles the
    instances of [Exception] and lets any other raised object pass. *)
Definition guarded (func : Callable) : M Outcome :=
  result <- invoke func ;;
  match result with
  | Return v => _on_success ;;; ret (Return v)
  | Raise e =>
      if is_Exception e then _on_failure ;;; ret (Raise e)
      else ret (Raise e)
  end.

(** [call] *)
Definition call (func : Callable) : M Outcome :=
  rejected <- gate ;;
  match rejected with
  | Some e => ret (Raise e)
  | None => guarded func
  end.

(** A sequence of calls on the same breaker, oldest first, with the
    outcome of each. *)
Fixpoint call_all (funcs : list Callable) : M (list Outcome) :=
  match funcs with
  | [] => ret []
  | func :: rest =>
      r <- call func ;;
      rs <- call_all rest ;;
      ret (r :: rs)
  end.

(** Whether a call made in state [s] gets past the [OPEN] branch and
    invokes the wrapped callable. *)
Definition reaches_operation (s : Sys) : bool :=
  match fst (gate s) with
  | None => true
  | Some _ => false
  end.

(** How many calls of the sequence invoke their callable. *)
Fixpoint invocations (funcs : list Callable) (s : Sys) : Z :=
  match funcs with
  | [] => 0
  | func :: rest =>
      (if reaches_operation s then 1 else 0) + invocations rest (snd (call func s))
  end.

(** The callable raises an instance of [Exception] whenever it is
    invoked. *)
Definition always_fails (func : Callable) : Prop :=
  forall w, exists e, fst (func w) = Raise e /\ is_Exception e = true.

(** The outcome is the circuit-open error of [call]. *)
Definition circuit_open_error (r : Outcome) : Prop :=
  exists minutes, r = Raise (Exception (open_message minutes)).

(** Each call of the sequence, at the moment it is made, comes before
    the recovery timeout has elapsed. *)
Fixpoint all_too_early (funcs : list Callable) (s : Sys) : Prop :=
  match funcs with
  | [] => True
  | func :: rest => too_early s /\ all_too_early rest (snd (call func s))
  end.

End Call.

Arguments Return {Value Exc} v.
Arguments Raise {Value Exc} e.
Arguments invoke {Value Exc} func s.
Arguments open_message current_timeout_minutes : simpl never.
Arguments gate {Exc} Exception s.
Arguments guarded {Value Exc} is_Exception func s.
Arguments call {Value Exc} is_Exception Exception func s.
Arguments call_all {Value Exc} is_Exception Exception funcs s.
Arguments reaches_operation {Exc} Exception s.
Arguments invocations {Value Exc} is_Exception Exception funcs s.
Arguments always_fails {Value Exc} is_Exception func.
Arguments circuit_open_error {Value Exc} Exception r.
Arguments all_too_early {Value Exc} is_Exception Exception funcs s.

(** ** Vocabulary of the statements *)

(** The timeout the calculator returns for breaker [cb] in world [w]. *)
Definition recovery_timeout (cb : CircuitBreaker) (w : World) : Z :=
  fst (_get_current_recovery_timeout_minutes {| self := cb; env := w |}).

(** The timeout of lines 70-84, before the jitter step. *)
Definition phase_timeout (cb : CircuitBreaker) : Z :=
  if consecutive_circuit_breaks cb <=? fixed_interval_retries cb then
    base_interval_minutes cb
  else
    base_interval_minutes cb
    * base_interval_minutes cb
      ^ Z.min (consecutive_circuit_breaks cb - fixed_interval_retries cb)
              (max_exponential_retries cb).

(** [ceil(0.1 * t)], the jitter magnitude in the words of the
    specification. *)
Definition ceil_tenth (t : Z) : Z := - ((- t) / 10).

(** The jitter rule in the words of the specification: the returned
    timeout is the jitter-free timeout [t] plus some integer of
    [[-c, +c]], where [c] is [ceil(0.1 t)] and at least 1, clamped below
    at 1, and every integer of that interval is a possible draw. *)
Definition jitter_rule_as_worded (cb : CircuitBreaker) : Prop :=
  forall w0,
    let t := recovery_timeout (with_jitter false cb) w0 in
    let c := Z.max 1 (ceil_tenth t) in
    (forall w, exists j, - c <= j <= c /\ recovery_timeout cb w = Z.max 1 (t + j)) /\
    (forall j, - c <= j <= c -> exists w, recovery_timeout cb w = Z.max 1 (t + j)).

(** A world whose clock always reads [0] and whose generator always
    outputs [0]. *)
Definition quiet_world : World := {| clock := fun _ => 0%Q; entropy := fun _ => 0 |}.

(** A world whose generator outputs [n] at every draw. *)
Definition world_drawing (n : Z) : World := {| clock := fun _ => 0%Q; entropy := fun _ => n |}.

(** A world whose clock reads [t0] seconds at the first reading and
    [t1] seconds at every later one. *)
Definition world_then (t0 t1 : Q) : World :=
  {| clock := fun n => match n with O => t0 | S _ => t1 end;
     entropy := fun _ => 0 |}.

(** Sample instance of the call section: exception objects are their
    messages, all of them instances of [Exception]. *)
Definition message_is_Exception (e : string) : bool := true.
Definition message_Exception (msg : string) : string := msg.

(** A callable that always raises, and one that always returns. *)
Definition outage : Callable unit string :=
  fun w => (Raise "connection refused"%string, w).
Definition healthy : Callable unit string :=
  fun w => (Return tt, w).

(** The sample instance of [call]. *)
Definition sample_call (func : Callable unit string) : M (Outcome unit string) :=
  call message_is_Exception message_Exception func.

(** A breaker with threshold 1, base interval 5 and no jitter whose
    circuit opened on a failure at time [t0], in a world whose clock
    reads [t1] from then on. *)
Definition opened_at (t0 t1 : Q) : Sys :=
  snd (sample_call outage {| self := init 1 5 3 5 false; env := world_then t0 t1 |}).

(** A breaker whose circuit has opened [k] times in a row. *)
Definition tripped (k : Z) (cb : CircuitBreaker) : CircuitBreaker :=
  set_consecutive_circuit_breaks k cb.

(** ** The breaker seen as a transition system

    What the methods do to the breaker object, with the world left out.
    The properties part proves that [_on_success], [_on_failure] and
    [call] act on the breaker as these definitions say. *)

(** The breaker after [_on_success]. *)
Definition succeeded (cb : CircuitBreaker) : CircuitBreaker :=
  set_state CLOSED (set_consecutive_circuit_breaks 0 (set_failure_count 0 cb)).

(** The breaker after [_on_failure] when [time.time()] returns [now]. *)
Definition failed_at (now : Q) (cb : CircuitBreaker) : CircuitBreaker :=
  let counted :=
    set_last_failure_time (Some now) (set_failure_count (failure_count cb + 1) cb) in
  if failure_count cb + 1 >=? failure_threshold cb then
    set_state OPEN
      (set_consecutive_circuit_breaks
         (if state_eqb (state cb) HALF_OPEN
          then consecutive_circuit_breaks cb + 1 else 1) counted)
  else counted.

(** The breaker with which [call] enters its [try]: itself, or itself in
    [HALF_OPEN] when it was [OPEN]. *)
Inductive entered (cb : CircuitBreaker) : CircuitBreaker -> Prop :=
| entered_direct : state cb <> OPEN -> entered cb cb
| entered_trial : state cb = OPEN -> entered cb (set_state HALF_OPEN cb).

(** One [call]: rejected in [OPEN], or entered and then ended by a
    return, by an instance of [Exception] raised while the clock reads
    [now], or by another raised object. *)
Inductive transition (cb : CircuitBreaker) : CircuitBreaker -> Prop :=
| transition_rejected : state cb = OPEN -> transition cb cb
| transition_return (cb1 : CircuitBreaker) :
    entered cb cb1 -> transition cb (succeeded cb1)
| transition_exception (cb1 : CircuitBreaker) (now : Q) :
    entered cb cb1 -> transition cb (failed_at now cb1)
| transition_escape (cb1 : CircuitBreaker) :
    entered cb cb1 -> transition cb cb1.

(** The relation between state and counters that every breaker built by
    [__init__] with a positive threshold and used through [call] keeps. *)
Definition coherent (cb : CircuitBreaker) : Prop :=
  1 <= failure_threshold cb /\
  match state cb with
  | CLOSED =>
      consecutive_circuit_breaks cb = 0 /\
      0 <= failure_count cb < failure_threshold cb
  | OPEN | HALF_OPEN =>
      1 <= consecutive_circuit_breaks cb /\
      failure_threshold cb <= failure_count cb /\
      last_failure_time cb <> None
  end.

(** The five configuration attributes of two breakers agree. *)
Definition same_config (a b : CircuitBreaker) : Prop :=
  failure_threshold a = failure_threshold b /\
  base_interval_minutes a = base_interval_minutes b /\
  fixed_interval_retries a = fixed_interval_retries b /\
  max_exponential_retries a = max_exponential_retries b /\
  jitter_enabled a = jitter_enabled b.

(** Second sample instance: exception objects are their class names,
    and [KeyboardInterrupt] is the one outside [Exception]. *)
Definition named_is_Exception (e : string) : bool :=
  negb (String.eqb e "KeyboardInterrupt").

(** A callable interrupted from the keyboard. *)
Definition interrupted : Callable unit string :=
  fun w => (Raise "KeyboardInterrupt"%string, w).

(** A breaker with threshold 1 left [HALF_OPEN] with both counters at 1:
    its circuit opened on a failure at second 60, and the trial call at
    second 360 was interrupted from the keyboard. *)
Definition interrupted_trial : Sys :=
  snd (call named_is_Exception message_Exception interrupted
         (snd (call named_is_Exception message_Exception outage
                 {| self := init 1 5 3 5 false; env := world_then 60 360 |}))).

(** The state after the calls of [history] on a fresh breaker, in the
    sample instance. *)
Definition sample_run (cb : CircuitBreaker) (w : World)
    (history : list (Callable unit string)) : Sys :=
  snd (call_all message_is_Exception message_Exception history
         {| self := cb; env := w |}).

(** * Properties *)

Lemma state_eqb_eq (a b : CircuitBreakerState) : state_eqb a b = true <-> a = b.
Proof. destruct a, b; simpl; split; intro H; try reflexivity; discriminate H. Qed.

(** ** The recovery-timeout calculator *)

(** One equation for the whole calculator. *)
Lemma recovery_timeout_eq (cb : CircuitBreaker) (w : World) :
  recovery_timeout cb w =
  if consecutive_circuit_breaks cb =? 0 then base_interval_minutes cb
  else if jitter_enabled cb then
    let r := Z.max 1 (Z.quot (phase_timeout cb) 10) in
    Z.max 1 (phase_timeout cb + (- r + entropy w 0%nat mod (r - - r + 1)))
  else phase_timeout cb.
Proof.
  unfold recovery_timeout, _get_current_recovery_timeout_minutes, bind, get_self,
    phase_timeout, int_tenth; cbn [self env fst].
  destruct (consecutive_circuit_breaks cb =? 0); [reflexivity|].
  assert (E : (if consecutive_circuit_breaks cb - fixed_interval_retries cb
                    >? max_exponential_retries cb
               then max_exponential_retries cb
               else consecutive_circuit_breaks cb - fixed_interval_retries cb)
              = Z.min (consecutive_circuit_breaks cb - fixed_interval_retries cb)
                      (max_exponential_retries cb)).
  { destruct (Z.gtb_spec (consecutive_circuit_breaks cb - fixed_interval_retries cb)
                         (max_exponential_retries cb)); lia. }
  rewrite E.
  destruct (jitter_enabled cb); reflexivity.
Qed.

(** Without jitter the calculator has no effect on the breaker or the
    world. *)
Lemma recovery_timeout_pure (s : Sys) :
  jitter_enabled (self s) = false ->
  snd (_get_current_recovery_timeout_minutes s) = s.
Proof.
  intro J. unfold _get_current_recovery_timeout_minutes, bind, get_self.
  destruct (consecutive_circuit_breaks (self s) =? 0); [reflexivity|].
  rewrite J. reflexivity.
Qed.

(** C1. Timeout phase law: with jitter disabled, [k] consecutive circuit
    breaks, [F] fixed-interval retries, base interval [B] and exponential
    cap [M] (configuration of the data model: [F] and [M] non-negative),
    the calculator returns [B] when [k <= F], [k = 0] included, and
    [B * B ^ min (k - F) M] when [k > F]. *)
Theorem recovery_timeout_phase_law (cb : CircuitBreaker) (w : World) :
  jitter_enabled cb = false ->
  0 <= fixed_interval_retries cb ->
  0 <= max_exponential_retries cb ->
  (consecutive_circuit_breaks cb <= fixed_interval_retries cb ->
   recovery_timeout cb w = base_interval_minutes cb) /\
  (consecutive_circuit_breaks cb > fixed_interval_retries cb ->
   recovery_timeout cb w =
   base_interval_minutes cb
   * base_interval_minutes cb
     ^ Z.min (consecutive_circuit_breaks cb - fixed_interval_retries cb)
             (max_exponential_retries cb)).
Proof.
  intros J HF _. rewrite recovery_timeout_eq, J. unfold phase_timeout.
  split; intro Hk.
  - destruct (Z.eqb_spec (consecutive_circuit_breaks cb) 0); [reflexivity|].
    destruct (Z.leb_spec (consecutive_circuit_breaks cb) (fixed_interval_retries cb));
      [reflexivity | lia].
  - destruct (Z.eqb_spec (consecutive_circuit_breaks cb) 0); [lia|].
    destruct (Z.leb_spec (consecutive_circuit_breaks cb) (fixed_interval_retries cb));
      [lia | reflexivity].
Qed.

Lemma recovery_timeout_phase_law_witness :
  recovery_timeout (tripped 100 (init 5 5 3 5 false)) quiet_world = 5 * 5 ^ 5.
Proof.
  apply (recovery_timeout_phase_law (tripped 100 (init 5 5 3 5 false)) quiet_world);
    simpl; [reflexivity | lia | lia | lia].
Defined.

(** With a zero base interval every phase gives a zero timeout before
    the jitter step. *)
Lemma phase_timeout_zero_base (cb : CircuitBreaker) :
  base_interval_minutes cb = 0 -> phase_timeout cb = 0.
Proof.
  intro B. unfold phase_timeout. rewrite B.
  destruct (consecutive_circuit_breaks cb <=? fixed_interval_retries cb); reflexivity.
Qed.

(** The draw of [random.randint(-r, r)] stays within its bounds. *)
Lemma randint_bounds (r e : Z) :
  1 <= r -> - r <= - r + e mod (r - - r + 1) <= r.
Proof.
  intro Hr. pose proof (Z.mod_pos_bound e (r - - r + 1)). lia.
Qed.

(** C4, as stated, fails: a breaker with base interval 0, jitter enabled
    and one circuit break gets the timeout 1, where the claim says 0. *)
Lemma zero_base_interval_counterexample :
  base_interval_minutes (tripped 1 (init 5 0 3 5 true)) = 0 /\
  recovery_timeout (tripped 1 (init 5 0 3 5 true)) quiet_world = 1.
Proof. split; reflexivity. Qed.

(** C4, amended. With base interval 0 (and a non-negative exponential
    cap) the calculator returns 0 whenever jitter is disabled or the
    breaker has no consecutive circuit break; with jitter enabled and a
    non-zero count of circuit breaks it returns 1, the minimum of the
    jitter clamp. *)
Theorem zero_base_interval_timeout (cb : CircuitBreaker) (w : World) :
  base_interval_minutes cb = 0 ->
  0 <= max_exponential_retries cb ->
  recovery_timeout cb w =
  if jitter_enabled cb && negb (consecutive_circuit_breaks cb =? 0) then 1 else 0.
Proof.
  intros B _. rewrite recovery_timeout_eq, (phase_timeout_zero_base cb B), B.
  destruct (consecutive_circuit_breaks cb =? 0), (jitter_enabled cb); try reflexivity.
  cbn [andb negb]. cbv zeta.
  change (Z.max 1 (Z.quot 0 10)) with 1.
  pose proof (randint_bounds 1 (entropy w 0%nat)). lia.
Qed.

Lemma zero_base_interval_timeout_witness :
  recovery_timeout (tripped 7 (init 5 0 3 5 false)) quiet_world = 0.
Proof.
  apply (zero_base_interval_timeout (tripped 7 (init 5 0 3 5 false)) quiet_world);
    simpl; [reflexivity | lia].
Defined.

(** Truncation never exceeds the ceiling on positive timeouts. *)
Lemma quot_tenth_le_ceil (t : Z) :
  1 <= t -> 1 <= ceil_tenth t /\ Z.quot t 10 <= ceil_tenth t.
Proof.
  intro Ht. unfold ceil_tenth. rewrite Z.quot_div_nonneg by lia.
  pose proof (Z.mod_pos_bound t 10). pose proof (Z.mod_pos_bound (- t) 10).
  pose proof (Z.div_mod t 10). pose proof (Z.div_mod (- t) 10). lia.
Qed.

(** C5, as stated, fails: at a jitter-free timeout of 25 the claimed
    interval is [[-3, 3]], while the code draws from [[-2, 2]], so that
    28 is never returned. *)
Lemma jitter_rule_counterexample :
  ~ jitter_rule_as_worded (tripped 1 (init 5 5 0 5 true)).
Proof.
  intro H. destruct (H quiet_world) as [_ H3]. cbv zeta in H3.
  change (recovery_timeout (with_jitter false (tripped 1 (init 5 5 0 5 true))) quiet_world)
    with 25 in H3.
  change (Z.max 1 (ceil_tenth 25)) with 3 in H3.
  destruct (H3 3) as [w Hw]; [lia|].
  rewrite recovery_timeout_eq in Hw.
  change (phase_timeout (tripped 1 (init 5 5 0 5 true))) with 25 in Hw.
  cbn [tripped set_consecutive_circuit_breaks init consecutive_circuit_breaks
       jitter_enabled Z.eqb] in Hw.
  cbv zeta in Hw. change (Z.max 1 (Z.quot 25 10)) with 2 in Hw.
  pose proof (randint_bounds 2 (entropy w 0%nat)).
  lia.
Qed.

(** C5, amended. With jitter enabled and a non-zero count of circuit
    breaks, the calculator adds to the jitter-free timeout [t] an integer
    drawn from [[-r, r]], where [r = max 1 (trunc (t / 10))] (truncation,
    not ceiling), and clamps the sum below at 1; with a zero count it
    returns [t] unperturbed.  For [1 <= t] the returned timeout lies
    within [[max 1 (t - ceil (0.1 t)), t + ceil (0.1 t)]]. *)
Theorem jitter_rule (cb : CircuitBreaker) (w0 : World) :
  jitter_enabled cb = true ->
  0 <= max_exponential_retries cb ->
  let t := recovery_timeout (with_jitter false cb) w0 in
  let r := Z.max 1 (Z.quot t 10) in
  (consecutive_circuit_breaks cb = 0 -> forall w, recovery_timeout cb w = t) /\
  (consecutive_circuit_breaks cb <> 0 ->
   (forall w, exists j, - r <= j <= r /\ recovery_timeout cb w = Z.max 1 (t + j)) /\
   (forall j, - r <= j <= r -> exists w, recovery_timeout cb w = Z.max 1 (t + j))) /\
  (1 <= t ->
   forall w, Z.max 1 (t - ceil_tenth t) <= recovery_timeout cb w <= t + ceil_tenth t).
Proof.
  intros J _ t r.
  assert (Ht : t = if consecutive_circuit_breaks cb =? 0
                   then base_interval_minutes cb else phase_timeout cb).
  { unfold t. rewrite recovery_timeout_eq. reflexivity. }
  assert (Hr : 1 <= r) by (unfold r; lia).
  repeat split.
  - intros K w. rewrite recovery_timeout_eq, Ht, K. reflexivity.
  - intro w. destruct (Z.eqb_spec (consecutive_circuit_breaks cb) 0) as [K|K]; [contradiction|].
    exists (- r + entropy w 0%nat mod (r - - r + 1)). split.
    + apply randint_bounds, Hr.
    + rewrite recovery_timeout_eq, J.
      destruct (Z.eqb_spec (consecutive_circuit_breaks cb) 0); [contradiction|].
      cbv zeta. fold t. rewrite <- Ht. reflexivity.
  - intros j Hj. exists (world_drawing (j + r)).
    rewrite recovery_timeout_eq, J.
    destruct (Z.eqb_spec (consecutive_circuit_breaks cb) 0); [contradiction|].
    cbv zeta. rewrite <- Ht. fold r. cbn [world_drawing entropy].
    rewrite Z.mod_small by lia. f_equal. lia.
  - rewrite recovery_timeout_eq, J.
    destruct (Z.eqb_spec (consecutive_circuit_breaks cb) 0) as [K|K].
    + rewrite <- Ht. destruct (quot_tenth_le_ceil t H). lia.
    + cbv zeta. rewrite <- Ht. fold r.
      pose proof (randint_bounds r (entropy w 0%nat) Hr).
      destruct (quot_tenth_le_ceil t H). unfold r in *. lia.
  - rewrite recovery_timeout_eq, J.
    destruct (Z.eqb_spec (consecutive_circuit_breaks cb) 0) as [K|K].
    + rewrite <- Ht. destruct (quot_tenth_le_ceil t H). lia.
    + cbv zeta. rewrite <- Ht. fold r.
      pose proof (randint_bounds r (entropy w 0%nat) Hr).
      destruct (quot_tenth_le_ceil t H). unfold r in *. lia.
Qed.

Lemma jitter_rule_witness :
  Z.max 1 (25 - ceil_tenth 25) <= recovery_timeout (tripped 1 (init 5 5 0 5 true)) (world_drawing 4)
  <= 25 + ceil_tenth 25.
Proof.
  apply (jitter_rule (tripped 1 (init 5 5 0 5 true)) quiet_world);
    [reflexivity | simpl; lia | vm_compute; discriminate].
Defined.

(** ** Frame lemmas: what the helpers leave alone *)

Lemma bind_eq {A B : Type} (m : M A) (k : A -> M B) (s : Sys) :
  bind m k s = k (fst (m s)) (snd (m s)).
Proof. unfold bind. destruct (m s); reflexivity. Qed.

Lemma recovery_timeout_self (s : Sys) :
  self (snd (_get_current_recovery_timeout_minutes s)) = self s.
Proof.
  unfold _get_current_recovery_timeout_minutes, bind, get_self, random_randint, ret.
  destruct (consecutive_circuit_breaks (self s) =? 0); [reflexivity|].
  destruct (jitter_enabled (self s)); reflexivity.
Qed.

Lemma time_time_self (s : Sys) : self (snd (time_time s)) = self s.
Proof. reflexivity. Qed.

Lemma should_attempt_reset_self (s : Sys) :
  self (snd (_should_attempt_reset s)) = self s.
Proof.
  unfold _should_attempt_reset. rewrite bind_eq. unfold get_self; cbn [fst snd].
  destruct (last_failure_time (self s)); [|reflexivity].
  rewrite bind_eq, bind_eq. cbn [ret snd].
  rewrite time_time_self. apply recovery_timeout_self.
Qed.

(** With a last failure time recorded, the reset check is the comparison
    of line 62. *)
Lemma should_attempt_reset_some (s : Sys) (last : Q) :
  last_failure_time (self s) = Some last ->
  _should_attempt_reset s =
  (Qle_bool (inject_Z (fst (_get_current_recovery_timeout_minutes s) * 60))
            (clock (env (snd (_get_current_recovery_timeout_minutes s))) 0%nat - last),
   snd (time_time (snd (_get_current_recovery_timeout_minutes s)))).
Proof.
  intro L. unfold _should_attempt_reset. rewrite bind_eq.
  unfold get_self; cbn [fst snd]. rewrite L.
  rewrite bind_eq, bind_eq. reflexivity.
Qed.

Lemma on_success_eq (s : Sys) :
  _on_success s =
  (tt, {| self := set_state CLOSED
                    (set_consecutive_circuit_breaks 0 (set_failure_count 0 (self s)));
          env := env s |}).
Proof. reflexivity. Qed.

(** The failure handler, attribute by attribute. *)
Lemma on_failure_eq (s : Sys) :
  let cb := self s in
  let counted :=
    set_last_failure_time (Some (clock (env s) 0%nat))
      (set_failure_count (failure_count cb + 1) cb) in
  _on_failure s =
  (tt, {| self :=
            if failure_count cb + 1 >=? failure_threshold cb then
              set_state OPEN
                (set_consecutive_circuit_breaks
                   (if state_eqb (state cb) HALF_OPEN
                    then consecutive_circuit_breaks cb + 1 else 1) counted)
            else counted;
          env := {| clock := tail (clock (env s)); entropy := entropy (env s) |} |}).
Proof.
  cbv zeta. unfold _on_failure, bind, update_self, time_time, get_self, ret.
  cbn [self env set_failure_count set_last_failure_time failure_count failure_threshold state].
  destruct (failure_count (self s) + 1 >=? failure_threshold (self s)); [|reflexivity].
  destruct (state_eqb (state (self s)) HALF_OPEN); reflexivity.
Qed.

(** ** The call-guarding method *)

Section CallProperties.

Variables Value Exc : Type.
Variable is_Exception : Exc -> bool.
Variable Exception : string -> Exc.

Local Abbreviation Callable' := (Callable Value Exc).
Local Abbreviation call' := (call is_Exception Exception).
Local Abbreviation call_all' := (call_all is_Exception Exception).
Local Abbreviation guarded' := (guarded is_Exception).
Local Abbreviation gate' := (gate Exception).

(** Outside [OPEN] the gate does nothing. *)
Lemma gate_not_open (s : Sys) :
  state (self s) <> OPEN -> gate' s = (None, s).
Proof.
  intro H. unfold gate. rewrite bind_eq. unfold get_self; cbn [fst snd].
  destruct (state_eqb (state (self s)) OPEN) eqn:E; [|reflexivity].
  apply state_eqb_eq in E. contradiction.
Qed.

(** In [OPEN] the gate follows the reset check: it either moves the
    breaker to [HALF_OPEN] or raises with a freshly computed timeout. *)
Lemma gate_open (s : Sys) :
  state (self s) = OPEN ->
  let s1 := snd (_should_attempt_reset s) in
  gate' s =
  if fst (_should_attempt_reset s) then
    (None, {| self := set_state HALF_OPEN (self s); env := env s1 |})
  else
    (Some (Exception (open_message (fst (_get_current_recovery_timeout_minutes s1)))),
     snd (_get_current_recovery_timeout_minutes s1)).
Proof.
  intros H s1. unfold gate. rewrite bind_eq. unfold get_self; cbn [fst snd].
  rewrite H. cbn [state_eqb]. rewrite bind_eq. fold s1.
  destruct (fst (_should_attempt_reset s)).
  - rewrite bind_eq. unfold update_self, ret; cbn [fst snd].
    unfold s1 at 1. rewrite should_attempt_reset_self. reflexivity.
  - rewrite bind_eq. reflexivity.
Qed.

(** The gate never opens the circuit and, when it lets the call through,
    leaves a breaker that is not [OPEN]. *)
Lemma gate_self (s : Sys) :
  match fst (gate' s) with
  | Some _ => self (snd (gate' s)) = self s
  | None =>
      (state (self s) <> OPEN /\ self (snd (gate' s)) = self s) \/
      (state (self s) = OPEN /\ self (snd (gate' s)) = set_state HALF_OPEN (self s))
  end.
Proof.
  destruct (state (self s)) eqn:E.
  - rewrite gate_not_open by congruence. left. split; [discriminate | reflexivity].
  - rewrite (gate_open s E). cbv zeta.
    destruct (fst (_should_attempt_reset s)); cbn [fst snd self].
    + right. split; reflexivity.
    + rewrite recovery_timeout_self. apply should_attempt_reset_self.
  - rewrite gate_not_open by congruence. left. split; [discriminate | reflexivity].
Qed.

Lemma call_eq (func : Callable') (s : Sys) :
  call' func s =
  match fst (gate' s) with
  | Some e => (Raise e, snd (gate' s))
  | None => guarded' func (snd (gate' s))
  end.
Proof.
  unfold call. rewrite bind_eq.
  destruct (fst (gate' s)); reflexivity.
Qed.

(** The [try] statement, outcome by outcome. *)
Lemma guarded_eq (func : Callable') (s : Sys) :
  guarded' func s =
  let after := {| self := self s; env := snd (func (env s)) |} in
  match fst (func (env s)) with
  | Return v => (Return v, snd (_on_success after))
  | Raise e =>
      if is_Exception e then (Raise e, snd (_on_failure after))
      else (Raise e, after)
  end.
Proof.
  unfold guarded. rewrite bind_eq. unfold invoke.
  destruct (func (env s)) as [r w']; cbn [fst snd].
  destruct r as [v|e].
  - rewrite bind_eq. reflexivity.
  - destruct (is_Exception e); [rewrite bind_eq|]; reflexivity.
Qed.

(** C6. A call that succeeds in state [CLOSED] or [HALF_OPEN] returns
    the value of the operation and leaves [failure_count = 0],
    [consecutive_circuit_breaks = 0] and [state = CLOSED]; the success
    handler is idempotent: run twice it leaves the breaker it leaves
    when run once. *)
Theorem success_resets_breaker (func : Callable') (s : Sys) (v : Value) (w' : World) :
  state (self s) = CLOSED \/ state (self s) = HALF_OPEN ->
  func (env s) = (Return v, w') ->
  fst (call' func s) = Return v /\
  snd (call' func s) = snd (_on_success {| self := self s; env := w' |}) /\
  failure_count (self (snd (call' func s))) = 0 /\
  consecutive_circuit_breaks (self (snd (call' func s))) = 0 /\
  state (self (snd (call' func s))) = CLOSED /\
  (forall s0, snd (_on_success (snd (_on_success s0))) = snd (_on_success s0)).
Proof.
  intros St F.
  assert (G : gate' s = (None, s)) by (apply gate_not_open; destruct St; congruence).
  rewrite call_eq, G; cbn [fst snd]. rewrite guarded_eq, F; cbn [fst snd].
  repeat split; reflexivity.
Qed.

(** C7. In a breaker with a recorded last failure time, when the clock
    reads exactly the last failure time plus the current recovery
    timeout, the reset check answers [True]; in state [OPEN] the call
    then moves the breaker to [HALF_OPEN] and enters the [try]. *)
Theorem reset_at_exact_timeout (s : Sys) (last : Q) :
  last_failure_time (self s) = Some last ->
  0 <= max_exponential_retries (self s) ->
  let current_timeout_minutes := fst (_get_current_recovery_timeout_minutes s) in
  let s1 := snd (_get_current_recovery_timeout_minutes s) in
  (clock (env s1) 0%nat - last == inject_Z (current_timeout_minutes * 60))%Q ->
  fst (_should_attempt_reset s) = true /\
  (state (self s) = OPEN ->
   forall func : Callable',
     call' func s =
     guarded' func {| self := set_state HALF_OPEN (self s);
                     env := env (snd (time_time s1)) |}).
Proof.
  intros L _ T s1 E.
  assert (R : fst (_should_attempt_reset s) = true).
  { rewrite (should_attempt_reset_some s last L); cbn [fst].
    apply Qle_bool_iff. fold T s1. rewrite E. apply Qle_refl. }
  split; [exact R|].
  intros O func. rewrite call_eq, (gate_open s O). cbv zeta. rewrite R; cbn [fst snd].
  rewrite (should_attempt_reset_some s last L); reflexivity.
Qed.

Lemma reaches_operation_eq (s : Sys) :
  reaches_operation Exception s = true <-> fst (gate' s) = None.
Proof.
  unfold reaches_operation. destruct (fst (gate' s)); split; congruence.
Qed.

(** C8. When the call reaches the wrapped operation and the operation
    raises [e], the call raises that same [e]; for an instance of
    [Exception] the breaker is first updated by the failure handler, and
    no raised object is ever swallowed. *)
Theorem call_reraises_unchanged (func : Callable') (s : Sys) (e : Exc) (w' : World) :
  0 <= max_exponential_retries (self s) ->
  reaches_operation Exception s = true ->
  func (env (snd (gate' s))) = (Raise e, w') ->
  let invoked := {| self := self (snd (gate' s)); env := w' |} in
  fst (call' func s) = Raise e /\
  snd (call' func s) = (if is_Exception e then snd (_on_failure invoked) else invoked) /\
  (is_Exception e = true ->
   failure_count (self (snd (call' func s))) = failure_count (self s) + 1 /\
   last_failure_time (self (snd (call' func s))) = Some (clock w' 0%nat)).
Proof.
  intros _ G F invoked. apply reaches_operation_eq in G.
  rewrite call_eq, G, guarded_eq, F; cbn [fst snd]. fold invoked.
  destruct (is_Exception e) eqn:IE; cbn [fst snd];
    (split; [reflexivity|]); (split; [reflexivity|]); [|discriminate].
  intros _. pose proof (on_failure_eq invoked) as OF. cbv zeta in OF. rewrite OF; cbn [snd self].
  assert (FC : failure_count (self invoked) = failure_count (self s)).
  { unfold invoked; cbn [self]. pose proof (gate_self s) as GS. rewrite G in GS.
    destruct GS as [[_ ->]|[_ ->]]; reflexivity. }
  rewrite FC.
  destruct (failure_count (self s) + 1 >=? failure_threshold (self invoked));
    cbn; rewrite ?FC; split; reflexivity.
Qed.

Lemma call_all_cons (func : Callable') (rest : list Callable') (s : Sys) :
  call_all' (func :: rest) s =
  (fst (call' func s) :: fst (call_all' rest (snd (call' func s))),
   snd (call_all' rest (snd (call' func s)))).
Proof. cbn [call_all]. rewrite bind_eq, bind_eq. reflexivity. Qed.

(** A call of a failing callable: the threshold stays, the failure is
    counted when the operation is reached, and the circuit is [OPEN]
    afterwards when that count reaches the threshold. *)
Lemma failing_call_effect (func : Callable') (s : Sys) :
  always_fails is_Exception func ->
  failure_threshold (self (snd (call' func s))) = failure_threshold (self s) /\
  failure_count (self (snd (call' func s))) =
    failure_count (self s) + (if reaches_operation Exception s then 1 else 0) /\
  (reaches_operation Exception s = true ->
   failure_threshold (self s) <= failure_count (self s) + 1 ->
   state (self (snd (call' func s))) = OPEN).
Proof.
  intro AF. rewrite call_eq. unfold reaches_operation.
  pose proof (gate_self s) as GS.
  destruct (fst (gate' s)) as [e0|]; cbn [snd].
  - rewrite GS. repeat split; [lia | discriminate].
  - assert (TH : failure_threshold (self (snd (gate' s))) = failure_threshold (self s))
      by (destruct GS as [[_ ->]|[_ ->]]; reflexivity).
    assert (FC : failure_count (self (snd (gate' s))) = failure_count (self s))
      by (destruct GS as [[_ ->]|[_ ->]]; reflexivity).
    destruct (AF (env (snd (gate' s)))) as [e [Fe IE]].
    rewrite guarded_eq, Fe, IE; cbn [snd].
    match goal with |- context [_on_failure ?x] =>
      pose proof (on_failure_eq x) as OF end.
    cbv zeta in OF. rewrite OF; cbn [snd self]. rewrite TH, FC.
    destruct (Z.geb_spec (failure_count (self s) + 1) (failure_threshold (self s)));
      cbn [failure_threshold failure_count state set_state set_failure_count
           set_consecutive_circuit_breaks set_last_failure_time];
      rewrite ?TH, ?FC; repeat split; try reflexivity; intros; exfalso; lia.
Qed.

(** A call on an [OPEN] breaker before the timeout has elapsed is
    rejected with the circuit-open error, leaves the breaker as it was
    and does not depend on the callable. *)
Lemma early_call_rejected (func : Callable') (s : Sys) :
  state (self s) = OPEN ->
  too_early s ->
  circuit_open_error Exception (fst (call' func s)) /\
  self (snd (call' func s)) = self s /\
  (forall func' : Callable', call' func' s = call' func s).
Proof.
  intros O E. unfold too_early in E.
  destruct (last_failure_time (self s)) as [last|] eqn:L; [|contradiction].
  assert (R : fst (_should_attempt_reset s) = false).
  { rewrite (should_attempt_reset_some s last L); cbn [fst].
    destruct (_get_current_recovery_timeout_minutes s) as [T s1]; cbn [fst snd].
    destruct (Qle_bool (inject_Z (T * 60)) (clock (env s1) 0%nat - last)) eqn:B;
      [|reflexivity].
    apply Qle_bool_iff in B. exfalso. exact (Qlt_not_le _ _ E B). }
  assert (CE : forall f : Callable',
             call' f s =
             (Raise (Exception (open_message
                        (fst (_get_current_recovery_timeout_minutes
                                (snd (_should_attempt_reset s)))))),
              snd (_get_current_recovery_timeout_minutes (snd (_should_attempt_reset s))))).
  { intro f. rewrite call_eq, (gate_open s O). cbv zeta. rewrite R. reflexivity. }
  rewrite (CE func); cbn [fst snd]. split; [eexists; reflexivity|]. split.
  - rewrite recovery_timeout_self. apply should_attempt_reset_self.
  - intro func'. apply CE.
Qed.

Lemma early_calls_rejected (later : list Callable') :
  forall s,
    state (self s) = OPEN ->
    all_too_early is_Exception Exception later s ->
    Forall (circuit_open_error Exception) (fst (call_all' later s)) /\
    self (snd (call_all' later s)) = self s /\
    (forall later' : list Callable',
       length later' = length later -> call_all' later' s = call_all' later s).
Proof.
  induction later as [|func rest IH]; intros s O E.
  - cbn. split; [constructor|]. split; [reflexivity|].
    intros [|f l] Hl; [reflexivity | discriminate Hl].
  - destruct E as [E1 E2].
    destruct (early_call_rejected func s O E1) as [CO [SF IND]].
    assert (O' : state (self (snd (call' func s))) = OPEN) by (rewrite SF; exact O).
    destruct (IH _ O' E2) as [A [B C]].
    rewrite call_all_cons; cbn [fst snd]. split; [constructor; assumption|].
    split; [rewrite B; exact SF|].
    intros [|f l] Hl; [discriminate Hl|].
    rewrite call_all_cons, (IND f), (C l); [reflexivity|].
    simpl in Hl. congruence.
Qed.

(** Along a run of failing calls the failure count grows by the number
    of calls that reach the operation. *)
Lemma failing_calls_count (funcs : list Callable') :
  forall s,
    Forall (always_fails is_Exception) funcs ->
    failure_threshold (self (snd (call_all' funcs s))) = failure_threshold (self s) /\
    failure_count (self (snd (call_all' funcs s))) =
      failure_count (self s) + invocations is_Exception Exception funcs s.
Proof.
  induction funcs as [|func rest IH]; intros s AF.
  - cbn. split; [reflexivity | lia].
  - inversion AF as [|? ? AF1 AF2]; subst.
    destruct (failing_call_effect func s AF1) as [Th [Fc _]].
    destruct (IH (snd (call' func s)) AF2) as [Th' Fc'].
    rewrite call_all_cons; cbn [snd invocations].
    rewrite Th', Fc', Th, Fc. split; [reflexivity | lia].
Qed.

(** C2. Take any breaker and a run of calls whose operation fails each
    time it is invoked (no success in between).  When the last call of
    the run is invoked and brings the count of consecutive failures to
    the threshold, the circuit is [OPEN] after it; thereafter every call
    made before the recovery timeout has elapsed since the last failure
    raises the circuit-open error, leaves the breaker unchanged, and its
    result does not depend on the callable, which is never invoked. *)
Theorem threshold_failures_open_circuit
    (s0 : Sys) (before : list Callable') (func : Callable') :
  0 <= max_exponential_retries (self s0) ->
  Forall (always_fails is_Exception) before ->
  always_fails is_Exception func ->
  let s1 := snd (call_all' before s0) in
  reaches_operation Exception s1 = true ->
  failure_threshold (self s0)
    <= failure_count (self s0) + invocations is_Exception Exception before s0 + 1 ->
  let s := snd (call' func s1) in
  state (self s) = OPEN /\
  (forall later : list Callable',
     all_too_early is_Exception Exception later s ->
     Forall (circuit_open_error Exception) (fst (call_all' later s)) /\
     self (snd (call_all' later s)) = self s /\
     (forall later' : list Callable',
        length later' = length later -> call_all' later' s = call_all' later s)).
Proof.
  intros _ AB AF s1 R Len s.
  destruct (failing_calls_count before s0 AB) as [Th Fc]. fold s1 in Th, Fc.
  destruct (failing_call_effect func s1 AF) as [_ [_ Op]].
  assert (O : state (self s) = OPEN) by (apply Op; [exact R | rewrite Th, Fc; exact Len]).
  split; [exact O|].
  intros later E. apply early_calls_rejected; assumption.
Qed.

(** The invariant of C10 and its preservation by one call. *)
Lemma call_keeps_failure_time (func : Callable') (s : Sys) :
  (state (self s) = OPEN -> last_failure_time (self s) <> None) ->
  state (self (snd (call' func s))) = OPEN ->
  last_failure_time (self (snd (call' func s))) <> None.
Proof.
  intro Inv. rewrite call_eq. pose proof (gate_self s) as GS.
  destruct (fst (gate' s)) as [e|]; cbn [snd].
  - rewrite GS. exact Inv.
  - assert (NO : state (self (snd (gate' s))) <> OPEN).
    { destruct GS as [[N ->]|[_ ->]]; [exact N | discriminate]. }
    rewrite guarded_eq. cbv zeta.
    destruct (fst (func (env (snd (gate' s))))) as [v|e]; cbn [snd].
    + rewrite on_success_eq; cbn. discriminate.
    + destruct (is_Exception e); cbn [snd self]; [|intro; contradiction].
      match goal with |- context [_on_failure ?x] =>
        pose proof (on_failure_eq x) as OF end.
      cbv zeta in OF. rewrite OF; cbn [snd self].
      match goal with |- context [if ?c then _ else _] => destruct c end;
        cbn; discriminate.
Qed.

Lemma call_all_keeps_failure_time (funcs : list Callable') :
  forall s,
    (state (self s) = OPEN -> last_failure_time (self s) <> None) ->
    state (self (snd (call_all' funcs s))) = OPEN ->
    last_failure_time (self (snd (call_all' funcs s))) <> None.
Proof.
  induction funcs as [|func rest IH]; intros s Inv.
  - exact Inv.
  - rewrite call_all_cons; cbn [snd]. apply IH.
    apply call_keeps_failure_time, Inv.
Qed.

(** C10. In every state reached from a freshly constructed breaker by a
    sequence of calls, an [OPEN] breaker has a last failure time, so the
    reset check never takes its [None] branch there: it is the
    comparison of the elapsed time with the timeout. *)
Theorem open_breaker_has_failure_time
    (threshold base fixed max_exp : Z) (jitter : bool) (w : World)
    (funcs : list Callable') :
  0 <= max_exp ->
  let s := snd (call_all' funcs
                  {| self := init threshold base fixed max_exp jitter; env := w |}) in
  state (self s) = OPEN ->
  exists last,
    last_failure_time (self s) = Some last /\
    _should_attempt_reset s =
    (Qle_bool (inject_Z (fst (_get_current_recovery_timeout_minutes s) * 60))
              (clock (env (snd (_get_current_recovery_timeout_minutes s))) 0%nat - last),
     snd (time_time (snd (_get_current_recovery_timeout_minutes s)))).
Proof.
  intros _ s O.
  assert (L : last_failure_time (self s) <> None).
  { apply call_all_keeps_failure_time; [|exact O]. cbn. discriminate. }
  destruct (last_failure_time (self s)) as [last|] eqn:E; [|contradiction].
  exists last. split; [reflexivity|]. apply should_attempt_reset_some, E.
Qed.

End CallProperties.

(** ** The status snapshot *)

(** C9. The status snapshot is read-only: it leaves the breaker, that is
    its state, its counters, its last failure time and its
    configuration, as it found it. *)
Theorem get_status_info_read_only (s : Sys) :
  0 <= max_exponential_retries (self s) ->
  self (snd (get_status_info s)) = self s.
Proof.
  intros _. unfold get_status_info. rewrite !bind_eq. unfold get_self, ret; cbn [fst snd].
  rewrite recovery_timeout_self.
  destruct (state_eqb (state (self s)) OPEN && truthy (last_failure_time (self s))).
  - rewrite bind_eq; cbn [ret snd]. rewrite time_time_self. apply recovery_timeout_self.
  - cbn [snd]. apply recovery_timeout_self.
Qed.

(** ** The model on concrete inputs *)

Lemma success_resets_breaker_witness :
  state (self interrupted_trial) = HALF_OPEN /\
  failure_count (self interrupted_trial) = 1 /\
  consecutive_circuit_breaks (self interrupted_trial) = 1 /\
  fst (call named_is_Exception message_Exception healthy interrupted_trial) = Return tt /\
  failure_count
    (self (snd (call named_is_Exception message_Exception healthy interrupted_trial))) = 0 /\
  consecutive_circuit_breaks
    (self (snd (call named_is_Exception message_Exception healthy interrupted_trial))) = 0 /\
  state
    (self (snd (call named_is_Exception message_Exception healthy interrupted_trial)))
  = CLOSED.
Proof.
  split; [reflexivity|]. split; [reflexivity|]. split; [reflexivity|].
  destruct (success_resets_breaker unit string named_is_Exception message_Exception
              healthy interrupted_trial tt (env interrupted_trial))
    as (R & _ & F & K & S & _);
    [right; reflexivity | reflexivity|].
  repeat split; assumption.
Defined.

Lemma reset_at_exact_timeout_witness :
  fst (_should_attempt_reset (opened_at 60 360)) = true.
Proof.
  apply (reset_at_exact_timeout unit string message_is_Exception message_Exception
           (opened_at 60 360) 60%Q);
    [reflexivity | vm_compute; discriminate | vm_compute; reflexivity].
Defined.

Lemma call_reraises_unchanged_witness :
  fst (sample_call outage {| self := init_default; env := quiet_world |})
  = Raise "connection refused"%string.
Proof.
  apply (call_reraises_unchanged unit string message_is_Exception message_Exception
           outage {| self := init_default; env := quiet_world |}
           "connection refused"%string quiet_world);
    [vm_compute; discriminate | reflexivity | reflexivity].
Defined.

Lemma outage_always_fails : always_fails message_is_Exception outage.
Proof. intro w. exists "connection refused"%string. split; reflexivity. Qed.

Lemma threshold_failures_open_circuit_witness :
  state (self (snd (sample_call outage
                      (snd (call_all message_is_Exception message_Exception [outage]
                              {| self := init 2 5 3 5 false; env := quiet_world |})))))
  = OPEN.
Proof.
  apply (threshold_failures_open_circuit unit string message_is_Exception
           message_Exception {| self := init 2 5 3 5 false; env := quiet_world |}
           [outage] outage);
    [vm_compute; discriminate | repeat constructor; apply outage_always_fails
    | apply outage_always_fails | reflexivity | vm_compute; discriminate].
Defined.

Lemma open_breaker_has_failure_time_witness :
  exists last,
    last_failure_time
      (self (snd (call_all message_is_Exception message_Exception [outage]
                    {| self := init 1 5 3 5 false; env := world_then 60 180 |})))
    = Some last.
Proof.
  destruct (open_breaker_has_failure_time unit string message_is_Exception
              message_Exception 1 5 3 5 false (world_then 60 180) [outage])
    as [last [L _]];
    [vm_compute; discriminate | reflexivity | exists last; exact L].
Defined.

Lemma get_status_info_read_only_witness :
  self (snd (get_status_info (opened_at 60 180))) = self (opened_at 60 180).
Proof.
  apply (get_status_info_read_only (opened_at 60 180)); vm_compute; discriminate.
Defined.

(** C3 on a concrete run.  The circuit opens on a failure at second 60;
    a call at second 180 is rejected.  The timeout is 5 minutes and 2
    minutes have elapsed, so 3 minutes remain, which is what the status
    snapshot reports; the error of [call] says 5. *)
Lemma open_error_reports_full_timeout :
  state (self (opened_at 60 180)) = OPEN /\
  last_failure_time (self (opened_at 60 180)) = Some 60%Q /\
  clock (env (opened_at 60 180)) 0%nat = 180%Q /\
  fst (sample_call outage (opened_at 60 180)) =
    Raise "Circuit breaker is OPEN. Service unavailable. Next retry in 5 minutes."%string /\
  (exists remaining,
     status_time_until_retry_minutes (fst (get_status_info (opened_at 60 180)))
     = Some remaining /\ (remaining == 3)%Q).
Proof.
  repeat split; try reflexivity.
  eexists. split; [vm_compute; reflexivity | reflexivity].
Qed.

(** * Further properties of the code *)

(** ** The recovery-timeout calculator *)

Lemma phase_timeout_tripped (k : Z) (cb : CircuitBreaker) :
  phase_timeout (tripped k cb) =
  if k <=? fixed_interval_retries cb then base_interval_minutes cb
  else base_interval_minutes cb
       * base_interval_minutes cb ^ Z.min (k - fixed_interval_retries cb)
                                          (max_exponential_retries cb).
Proof. reflexivity. Qed.

Lemma phase_timeout_bounds (cb : CircuitBreaker) :
  1 <= base_interval_minutes cb ->
  0 <= max_exponential_retries cb ->
  base_interval_minutes cb <= phase_timeout cb
  <= base_interval_minutes cb * base_interval_minutes cb ^ max_exponential_retries cb.
Proof.
  intros B Mx. unfold phase_timeout.
  assert (P0 : 1 <= base_interval_minutes cb ^ max_exponential_retries cb)
    by (apply Z.pow_pos_nonneg with (a := base_interval_minutes cb) in Mx; lia).
  destruct (Z.leb_spec (consecutive_circuit_breaks cb) (fixed_interval_retries cb)).
  - nia.
  - set (e := Z.min _ _).
    assert (He : 0 <= e <= max_exponential_retries cb) by (unfold e; lia).
    assert (P1 : 1 <= base_interval_minutes cb ^ e)
      by (assert (0 < base_interval_minutes cb ^ e)
            by (apply Z.pow_pos_nonneg; lia); lia).
    assert (P2 : base_interval_minutes cb ^ e
                 <= base_interval_minutes cb ^ max_exponential_retries cb)
      by (apply Z.pow_le_mono_r; lia).
    nia.
Qed.

Lemma phase_timeout_mono (cb : CircuitBreaker) (k1 k2 : Z) :
  1 <= base_interval_minutes cb ->
  0 <= max_exponential_retries cb ->
  k1 <= k2 ->
  phase_timeout (tripped k1 cb) <= phase_timeout (tripped k2 cb).
Proof.
  intros B Mx K. rewrite !phase_timeout_tripped.
  destruct (Z.leb_spec k1 (fixed_interval_retries cb)),
           (Z.leb_spec k2 (fixed_interval_retries cb)); try lia.
  - set (e := Z.min _ _).
    assert (0 < base_interval_minutes cb ^ e)
      by (apply Z.pow_pos_nonneg; unfold e; lia).
    nia.
  - apply Z.mul_le_mono_nonneg_l; [lia|].
    apply Z.pow_le_mono_r; lia.
Qed.

(** X1. Escalation is monotone and capped.  With jitter disabled, a
    base interval of at least 1 and non-negative retry settings, the
    timeout never decreases when the count of consecutive circuit breaks
    grows, and it always lies between the base interval [B] and
    [B * B ^ M]. *)
Theorem recovery_timeout_monotone_capped
    (cb : CircuitBreaker) (k1 k2 : Z) (w1 w2 : World) :
  jitter_enabled cb = false ->
  1 <= base_interval_minutes cb ->
  0 <= fixed_interval_retries cb ->
  0 <= max_exponential_retries cb ->
  k1 <= k2 ->
  recovery_timeout (tripped k1 cb) w1 <= recovery_timeout (tripped k2 cb) w2 /\
  base_interval_minutes cb <= recovery_timeout (tripped k2 cb) w2
  <= base_interval_minutes cb * base_interval_minutes cb ^ max_exponential_retries cb.
Proof.
  intros J B F Mx K.
  assert (E : forall k w, recovery_timeout (tripped k cb) w =
                          if k =? 0 then base_interval_minutes cb
                          else phase_timeout (tripped k cb)).
  { intros k w. rewrite recovery_timeout_eq.
    cbn [tripped set_consecutive_circuit_breaks consecutive_circuit_breaks
         jitter_enabled base_interval_minutes].
    rewrite J. reflexivity. }
  assert (Z0 : forall k, k = 0 -> phase_timeout (tripped k cb) = base_interval_minutes cb).
  { intros k ->. rewrite phase_timeout_tripped.
    destruct (Z.leb_spec 0 (fixed_interval_retries cb)); [reflexivity | lia]. }
  assert (E' : forall k w, recovery_timeout (tripped k cb) w = phase_timeout (tripped k cb)).
  { intros k w. rewrite E. destruct (Z.eqb_spec k 0) as [K0|]; [|reflexivity].
    symmetry. apply Z0, K0. }
  rewrite !E'. split.
  - apply phase_timeout_mono; assumption.
  - apply (phase_timeout_bounds (tripped k2 cb)); assumption.
Qed.

Lemma recovery_timeout_monotone_capped_witness :
  recovery_timeout (tripped 4 (init 1 5 2 2 false)) quiet_world
  <= recovery_timeout (tripped 9 (init 1 5 2 2 false)) quiet_world.
Proof.
  apply (recovery_timeout_monotone_capped (init 1 5 2 2 false) 4 9 quiet_world quiet_world);
    [reflexivity | simpl; lia | simpl; lia | simpl; lia | lia].
Defined.

(** X2. The timeout is at least 1 whenever the base interval is at
    least 1, with or without jitter, and also whenever jitter is enabled
    and the count of consecutive circuit breaks is not zero, whatever
    the base interval. *)
Theorem recovery_timeout_at_least_one (cb : CircuitBreaker) (w : World) :
  0 <= max_exponential_retries cb ->
  1 <= base_interval_minutes cb \/
  (jitter_enabled cb = true /\ consecutive_circuit_breaks cb <> 0) ->
  1 <= recovery_timeout cb w.
Proof.
  intros Mx H. rewrite recovery_timeout_eq.
  destruct (Z.eqb_spec (consecutive_circuit_breaks cb) 0) as [K|K].
  - destruct H as [B|[_ N]]; [exact B | contradiction].
  - destruct (jitter_enabled cb) eqn:J.
    + cbv zeta. lia.
    + destruct H as [B|[D _]]; [|discriminate].
      pose proof (phase_timeout_bounds cb B Mx). lia.
Qed.

Lemma recovery_timeout_at_least_one_witness :
  1 <= recovery_timeout (tripped 3 (init 5 (-4) 3 5 true)) quiet_world.
Proof.
  apply (recovery_timeout_at_least_one (tripped 3 (init 5 (-4) 3 5 true)) quiet_world);
    [simpl; lia | right; split; [reflexivity | simpl; lia]].
Defined.

(** ** The status snapshot *)

Lemma get_status_info_fields (s : Sys) :
  let timeout := fst (_get_current_recovery_timeout_minutes s) in
  let s1 := snd (_get_current_recovery_timeout_minutes s) in
  let cb := self s in
  let info := fst (get_status_info s) in
  status_current_recovery_timeout_minutes info = timeout /\
  status_retry_phase info = retry_phase_of cb /\
  status_time_until_retry_minutes info =
    (if state_eqb (state cb) OPEN && truthy (last_failure_time cb) then
       Some (max0 (inject_Z timeout
                   - (clock (env s1) 0%nat
                      - match last_failure_time cb with Some last => last | None => 0 end)
                     / 60)%Q)
     else None).
Proof.
  cbv zeta. unfold get_status_info. rewrite !bind_eq.
  unfold get_self, ret; cbn [fst snd]. rewrite recovery_timeout_self.
  destruct (state_eqb (state (self s)) OPEN && truthy (last_failure_time (self s))).
  - rewrite bind_eq; cbn [ret fst snd time_time self].
    rewrite recovery_timeout_self. repeat split; reflexivity.
  - cbn [ret fst snd]. rewrite recovery_timeout_self. repeat split; reflexivity.
Qed.

Lemma max0_nonneg (x : Q) : (0 <= max0 x)%Q.
Proof.
  unfold max0. destruct (Qle_bool x 0) eqn:E; [apply Qle_refl|].
  destruct (Qlt_le_dec 0 x) as [L|L]; [apply Qlt_le_weak, L|].
  apply Qle_bool_iff in L. congruence.
Qed.

Lemma max0_zero_iff (x : Q) : (max0 x == 0)%Q <-> (x <= 0)%Q.
Proof.
  unfold max0. destruct (Qle_bool x 0) eqn:E.
  - apply Qle_bool_iff in E. split; [intros _; exact E | intros _; reflexivity].
  - split; intro H.
    + rewrite H. apply Qle_refl.
    + apply Qle_bool_iff in H. congruence.
Qed.

Lemma truthy_some (t : Q) : truthy (Some t) = true <-> ~ (t == 0)%Q.
Proof.
  cbn [truthy]. destruct (Qeq_bool t 0) eqn:E; cbn [negb].
  - apply Qeq_bool_iff in E. split; [discriminate | intro N; contradiction].
  - split; [intros _ H; apply Qeq_bool_iff in H; congruence | reflexivity].
Qed.

(** X3. The remaining wait of the status snapshot.  It is absent
    outside [OPEN], and also in [OPEN] when the last failure time is the
    timestamp 0, which Python takes for false; otherwise it is present,
    never negative, and at most the reported timeout when that timeout
    is not negative and the clock has not gone back behind the last
    failure. *)
Theorem time_until_retry_range (s : Sys) :
  0 <= max_exponential_retries (self s) ->
  let info := fst (get_status_info s) in
  let now := clock (env (snd (_get_current_recovery_timeout_minutes s))) 0%nat in
  (state (self s) <> OPEN -> status_time_until_retry_minutes info = None) /\
  (forall last, last_failure_time (self s) = Some last -> (last == 0)%Q ->
     status_time_until_retry_minutes info = None) /\
  (forall last, state (self s) = OPEN -> last_failure_time (self s) = Some last ->
     ~ (last == 0)%Q ->
     exists remaining,
       status_time_until_retry_minutes info = Some remaining /\
       (0 <= remaining)%Q /\
       ((last <= now)%Q -> 0 <= status_current_recovery_timeout_minutes info ->
        (remaining <= inject_Z (status_current_recovery_timeout_minutes info))%Q)).
Proof.
  intros _ info now.
  destruct (get_status_info_fields s) as [HT [_ HR]]. fold info in HT, HR.
  repeat split.
  - intro N. rewrite HR.
    destruct (state_eqb (state (self s)) OPEN) eqn:E; [|reflexivity].
    apply state_eqb_eq in E. contradiction.
  - intros last L Z. rewrite HR, L.
    assert (T : truthy (Some last) = false).
    { destruct (truthy (Some last)) eqn:E; [|reflexivity].
      apply truthy_some in E. contradiction. }
    rewrite T, andb_false_r. reflexivity.
  - intros last O L NZ. rewrite HR, L, O.
    apply truthy_some in NZ. rewrite NZ. cbn [state_eqb andb].
    eexists. split; [reflexivity|]. split; [apply max0_nonneg|].
    intros Le Pos. rewrite HT in Pos |- *. fold now.
    assert (P : (0 <= inject_Z (fst (_get_current_recovery_timeout_minutes s)))%Q)
      by (change 0%Q with (inject_Z 0); rewrite <- Zle_Qle; exact Pos).
    set (T := inject_Z (fst (_get_current_recovery_timeout_minutes s))) in *.
    unfold max0.
    destruct (Qle_bool (T - (now - last) / 60) 0) eqn:E; [exact P|].
    unfold Qdiv. change (/ 60)%Q with (1 # 60)%Q. lra.
Qed.

Lemma time_until_retry_range_witness :
  status_time_until_retry_minutes (fst (get_status_info (opened_at 0 180))) = None.
Proof.
  destruct (time_until_retry_range (opened_at 0 180)) as [_ [H _]];
    [vm_compute; discriminate|].
  apply (H 0%Q); reflexivity.
Defined.

(** X4. Snapshot and gate agree.  With jitter disabled, in an [OPEN]
    breaker whose last failure time is not the timestamp 0, the snapshot
    reports a remaining wait of 0 exactly when the reset check made at
    the same clock reading lets a call through. *)
Theorem time_until_retry_zero_iff_reset (s : Sys) (last : Q) :
  0 <= max_exponential_retries (self s) ->
  jitter_enabled (self s) = false ->
  state (self s) = OPEN ->
  last_failure_time (self s) = Some last ->
  ~ (last == 0)%Q ->
  exists remaining,
    status_time_until_retry_minutes (fst (get_status_info s)) = Some remaining /\
    ((remaining == 0)%Q <-> fst (_should_attempt_reset s) = true).
Proof.
  intros _ J O L NZ.
  destruct (get_status_info_fields s) as [_ [_ HR]].
  rewrite HR, L, O. apply truthy_some in NZ. rewrite NZ. cbn [state_eqb andb].
  eexists. split; [reflexivity|].
  rewrite (should_attempt_reset_some s last L); cbn [fst].
  set (T := fst (_get_current_recovery_timeout_minutes s)).
  set (now := clock (env (snd (_get_current_recovery_timeout_minutes s))) 0%nat).
  rewrite max0_zero_iff, Qle_bool_iff, inject_Z_mult.
  change (inject_Z 60) with 60%Q.
  unfold Qdiv. change (/ 60)%Q with (1 # 60)%Q.
  split; intro H; lra.
Qed.

Lemma time_until_retry_zero_iff_reset_witness :
  exists remaining,
    status_time_until_retry_minutes (fst (get_status_info (opened_at 60 360)))
    = Some remaining /\
    ((remaining == 0)%Q <-> fst (_should_attempt_reset (opened_at 60 360)) = true).
Proof.
  apply (time_until_retry_zero_iff_reset (opened_at 60 360) 60%Q);
    [vm_compute; discriminate | reflexivity | reflexivity | reflexivity
    | vm_compute; discriminate].
Defined.

Lemma recovery_timeout_of_sys (s : Sys) :
  fst (_get_current_recovery_timeout_minutes s) = recovery_timeout (self s) (env s).
Proof. destruct s; reflexivity. Qed.

(** X5. The phase label of the snapshot and the reported timeout tell
    the same story.  With jitter disabled and non-negative retry
    settings: with no circuit break the label is [closed] and the
    timeout the base interval [B]; in the fixed phase the label shows
    attempt [k] of [F] and the timeout is [B]; in the exponential phase
    the label shows an attempt [i] with [0 <= i <= M] and the timeout is
    [B * B ^ i] for that same [i]. *)
Theorem retry_phase_matches_timeout (s : Sys) :
  jitter_enabled (self s) = false ->
  0 <= fixed_interval_retries (self s) ->
  0 <= max_exponential_retries (self s) ->
  let cb := self s in
  let info := fst (get_status_info s) in
  (consecutive_circuit_breaks cb <= 0 ->
   status_retry_phase info = "closed"%string /\
   status_current_recovery_timeout_minutes info = base_interval_minutes cb) /\
  (0 < consecutive_circuit_breaks cb <= fixed_interval_retries cb ->
   status_retry_phase info =
     ("fixed-interval (attempt " ++ str (consecutive_circuit_breaks cb) ++ "/"
        ++ str (fixed_interval_retries cb) ++ ")")%string /\
   status_current_recovery_timeout_minutes info = base_interval_minutes cb) /\
  (fixed_interval_retries cb < consecutive_circuit_breaks cb ->
   exists i,
     0 <= i <= max_exponential_retries cb /\
     status_retry_phase info =
       ("exponential-interval (attempt " ++ str i ++ "/"
          ++ str (max_exponential_retries cb) ++ ")")%string /\
     status_current_recovery_timeout_minutes info =
       base_interval_minutes cb * base_interval_minutes cb ^ i).
Proof.
  intros J F Mx. cbv zeta.
  destruct (get_status_info_fields s) as [HT [HP _]].
  rewrite HT, HP, recovery_timeout_of_sys, recovery_timeout_eq, J.
  set (cb := self s) in *. unfold retry_phase_of, phase_timeout.
  repeat split.
  - destruct (Z.gtb_spec (consecutive_circuit_breaks cb) 0); [lia | reflexivity].
  - destruct (Z.eqb_spec (consecutive_circuit_breaks cb) 0); [reflexivity|].
    destruct (Z.leb_spec (consecutive_circuit_breaks cb) (fixed_interval_retries cb));
      [reflexivity | lia].
  - destruct (Z.gtb_spec (consecutive_circuit_breaks cb) 0); [|lia].
    destruct (Z.leb_spec (consecutive_circuit_breaks cb) (fixed_interval_retries cb));
      [reflexivity | lia].
  - destruct (Z.eqb_spec (consecutive_circuit_breaks cb) 0); [lia|].
    destruct (Z.leb_spec (consecutive_circuit_breaks cb) (fixed_interval_retries cb));
      [reflexivity | lia].
  - intro K.
    exists (Z.min (consecutive_circuit_breaks cb - fixed_interval_retries cb)
                  (max_exponential_retries cb)).
    split; [lia|].
    destruct (Z.gtb_spec (consecutive_circuit_breaks cb) 0); [|lia].
    destruct (Z.eqb_spec (consecutive_circuit_breaks cb) 0); [lia|].
    destruct (Z.leb_spec (consecutive_circuit_breaks cb) (fixed_interval_retries cb));
      [lia|].
    split; reflexivity.
Qed.

Lemma retry_phase_matches_timeout_witness :
  exists i,
    0 <= i <= 3 /\
    status_retry_phase
      (fst (get_status_info {| self := tripped 10 (init 5 5 2 3 false); env := quiet_world |}))
    = ("exponential-interval (attempt " ++ str i ++ "/" ++ str 3 ++ ")")%string /\
    status_current_recovery_timeout_minutes
      (fst (get_status_info {| self := tripped 10 (init 5 5 2 3 false); env := quiet_world |}))
    = 5 * 5 ^ i.
Proof.
  apply (retry_phase_matches_timeout
           {| self := tripped 10 (init 5 5 2 3 false); env := quiet_world |});
    [reflexivity | simpl; lia | simpl; lia | simpl; lia].
Defined.

(** ** The breaker as a transition system *)

Lemma on_failure_failed_at (s : Sys) :
  self (snd (_on_failure s)) = failed_at (clock (env s) 0%nat) (self s).
Proof.
  pose proof (on_failure_eq s) as OF. cbv zeta in OF. rewrite OF. reflexivity.
Qed.

Lemma entered_same_config (cb cb1 : CircuitBreaker) :
  entered cb cb1 -> same_config cb cb1.
Proof. intros []; repeat split. Qed.

Lemma failed_at_same_config (now : Q) (cb : CircuitBreaker) :
  same_config cb (failed_at now cb).
Proof.
  unfold failed_at.
  destruct (failure_count cb + 1 >=? failure_threshold cb); repeat split.
Qed.

Lemma same_config_trans (a b c : CircuitBreaker) :
  same_config a b -> same_config b c -> same_config a c.
Proof.
  unfold same_config. intros (A1 & A2 & A3 & A4 & A5) (B1 & B2 & B3 & B4 & B5).
  repeat split; congruence.
Qed.

Lemma transition_same_config (cb cb' : CircuitBreaker) :
  transition cb cb' -> same_config cb cb'.
Proof.
  intros [O | cb1 E | cb1 now E | cb1 E].
  - repeat split.
  - apply same_config_trans with cb1; [apply entered_same_config, E | repeat split].
  - apply same_config_trans with cb1;
      [apply entered_same_config, E | apply failed_at_same_config].
  - apply entered_same_config, E.
Qed.

Lemma entered_coherent (cb cb1 : CircuitBreaker) :
  entered cb cb1 -> coherent cb -> coherent cb1 /\ state cb1 <> OPEN.
Proof.
  intros [N | O] [T C].
  - split; [split; assumption | exact N].
  - rewrite O in C. split; [|discriminate]. split; [exact T|exact C].
Qed.

Lemma transition_coherent (cb cb' : CircuitBreaker) :
  transition cb cb' -> coherent cb -> coherent cb'.
Proof.
  intros [O | cb1 E | cb1 now E | cb1 E] C.
  - exact C.
  - destruct (entered_coherent _ _ E C) as [[T _] _].
    split; [exact T|]. cbn. lia.
  - destruct (entered_coherent _ _ E C) as [[T C1] N].
    unfold failed_at.
    destruct (Z.geb_spec (failure_count cb1 + 1) (failure_threshold cb1)) as [G|G].
    + split; [exact T|]. cbn.
      destruct (state cb1) eqn:S1; cbn [state_eqb]; try contradiction;
        (split; [lia|]); (split; [lia | discriminate]).
    + split; [exact T|]. cbn.
      destruct (state cb1) eqn:S1; try contradiction; [lia | exfalso; lia].
  - apply (entered_coherent _ _ E C).
Qed.

Section Transitions.

Variables Value Exc : Type.
Variable is_Exception : Exc -> bool.
Variable Exception : string -> Exc.

Local Abbreviation Callable' := (Callable Value Exc).
Local Abbreviation call' := (call is_Exception Exception).
Local Abbreviation call_all' := (call_all is_Exception Exception).
Local Abbreviation gate' := (gate Exception).
Local Abbreviation reaches' := (reaches_operation Exception).

Lemma gate_entered (s : Sys) :
  fst (gate' s) = None -> entered (self s) (self (snd (gate' s))).
Proof.
  intro G. pose proof (gate_self Exc Exception s) as GS. rewrite G in GS.
  destruct GS as [[N ->]|[O ->]]; [apply entered_direct, N | apply entered_trial, O].
Qed.

Lemma gate_rejects_open (s : Sys) (e : Exc) :
  fst (gate' s) = Some e -> state (self s) = OPEN.
Proof.
  intro G. destruct (state (self s)) eqn:E; [|reflexivity|];
    rewrite gate_not_open in G by congruence; discriminate G.
Qed.

(** Every call moves the breaker along the transition relation. *)
Lemma call_transition (func : Callable') (s : Sys) :
  transition (self s) (self (snd (call' func s))).
Proof.
  rewrite call_eq. destruct (fst (gate' s)) as [e|] eqn:G; cbn [snd].
  - pose proof (gate_self Exc Exception s) as GS. rewrite G in GS. rewrite GS.
    apply transition_rejected, (gate_rejects_open s e G).
  - pose proof (gate_entered s G) as E.
    rewrite guarded_eq. cbv zeta.
    destruct (fst (func (env (snd (gate' s))))) as [v|e]; cbn [snd].
    + rewrite on_success_eq; cbn [snd self]. apply transition_return, E.
    + destruct (is_Exception e); cbn [snd self].
      * rewrite on_failure_failed_at; cbn [self env]. apply transition_exception, E.
      * apply transition_escape, E.
Qed.

Lemma call_all_invariant (P : CircuitBreaker -> Prop) :
  (forall cb cb', transition cb cb' -> P cb -> P cb') ->
  forall (funcs : list Callable') (s : Sys),
    P (self s) -> P (self (snd (call_all' funcs s))).
Proof.
  intros Step funcs. induction funcs as [|func rest IH]; intros s H.
  - exact H.
  - rewrite call_all_cons; cbn [snd]. apply IH.
    apply (Step _ _ (call_transition func s) H).
Qed.

(** X6. No sequence of calls changes the configuration: the threshold,
    the base interval, the two retry settings and the jitter switch are
    after the calls what they were before. *)
Theorem calls_keep_configuration (funcs : list Callable') (s : Sys) :
  0 <= max_exponential_retries (self s) ->
  let cb' := self (snd (call_all' funcs s)) in
  failure_threshold cb' = failure_threshold (self s) /\
  base_interval_minutes cb' = base_interval_minutes (self s) /\
  fixed_interval_retries cb' = fixed_interval_retries (self s) /\
  max_exponential_retries cb' = max_exponential_retries (self s) /\
  jitter_enabled cb' = jitter_enabled (self s).
Proof.
  intros _ cb'.
  assert (H : same_config (self s) cb').
  { apply (call_all_invariant (same_config (self s))).
    - intros a b T A. apply same_config_trans with a;
        [exact A | apply transition_same_config, T].
    - repeat split. }
  destruct H as (H1 & H2 & H3 & H4 & H5). repeat split; congruence.
Qed.

(** X7. State and counters stay coherent.  After any sequence of calls
    on a breaker constructed with a threshold of at least 1: in [CLOSED]
    the count of consecutive circuit breaks is 0 and the failure count
    is below the threshold; in [OPEN] and [HALF_OPEN] the count of
    consecutive circuit breaks is at least 1, the failure count has
    reached the threshold and a last failure time is recorded. *)
Theorem reachable_state_coherent
    (threshold base fixed max_exp : Z) (jitter : bool) (w : World)
    (history : list Callable') :
  1 <= threshold ->
  0 <= max_exp ->
  let cb := self (snd (call_all' history
                         {| self := init threshold base fixed max_exp jitter;
                            env := w |})) in
  (state cb = CLOSED ->
   consecutive_circuit_breaks cb = 0 /\
   0 <= failure_count cb < failure_threshold cb) /\
  (state cb <> CLOSED ->
   1 <= consecutive_circuit_breaks cb /\
   failure_threshold cb <= failure_count cb /\
   last_failure_time cb <> None).
Proof.
  intros T _ cb.
  assert (C : coherent cb).
  { apply (call_all_invariant coherent transition_coherent).
    split; [exact T|]. cbn. lia. }
  destruct C as [_ C]. split; intro S.
  - rewrite S in C. exact C.
  - destruct (state cb); [contradiction | exact C | exact C].
Qed.

(** The breaker after a call that enters its [try], outcome by outcome. *)
Lemma call_entered_eq (func : Callable') (s : Sys) :
  fst (gate' s) = None ->
  let cb1 := self (snd (gate' s)) in
  let w' := snd (func (env (snd (gate' s)))) in
  match fst (func (env (snd (gate' s)))) with
  | Return v =>
      call' func s = (Return v, {| self := succeeded cb1; env := w' |})
  | Raise e =>
      fst (call' func s) = Raise e /\
      self (snd (call' func s)) =
        (if is_Exception e then failed_at (clock w' 0%nat) cb1 else cb1)
  end.
Proof.
  intros G cb1 w'. rewrite call_eq, G, guarded_eq. cbv zeta. fold w' cb1.
  destruct (fst (func (env (snd (gate' s))))) as [v|e]; [reflexivity|].
  destruct (is_Exception e); cbn [fst snd self]; split; try reflexivity.
  rewrite on_failure_failed_at. reflexivity.
Qed.

Lemma should_attempt_reset_none (s : Sys) :
  last_failure_time (self s) = None -> _should_attempt_reset s = (true, s).
Proof.
  intro L. unfold _should_attempt_reset. rewrite bind_eq.
  unfold get_self; cbn [fst snd]. rewrite L. reflexivity.
Qed.

(** X8. When a call is let through.  A call reaches the wrapped
    operation exactly when the breaker is not [OPEN], or has no last
    failure time, or the clock reads at least the last failure time plus
    sixty times the timeout computed for the check. *)
Theorem call_let_through_iff (s : Sys) :
  0 <= max_exponential_retries (self s) ->
  let timeout := fst (_get_current_recovery_timeout_minutes s) in
  let now := clock (env (snd (_get_current_recovery_timeout_minutes s))) 0%nat in
  reaches' s = true <->
  (state (self s) <> OPEN \/
   last_failure_time (self s) = None \/
   exists last, last_failure_time (self s) = Some last /\
                (inject_Z (timeout * 60) <= now - last)%Q).
Proof.
  intros _ timeout now. unfold reaches_operation.
  destruct (state (self s)) eqn:O.
  - rewrite gate_not_open by congruence. cbn [fst].
    split; [left; discriminate | reflexivity].
  - rewrite (gate_open Exc Exception s O). cbv zeta.
    destruct (last_failure_time (self s)) as [last|] eqn:L.
    + rewrite (should_attempt_reset_some s last L); cbn [fst]. fold timeout now.
      destruct (Qle_bool (inject_Z (timeout * 60)) (now - last)) eqn:B; cbn [fst].
      * split; [|reflexivity]. intros _. right. right. exists last.
        split; [reflexivity | apply Qle_bool_iff, B].
      * split; [discriminate|].
        intros [N|[N|[last' [E Le]]]]; [contradiction | discriminate|].
        injection E as <-. apply Qle_bool_iff in Le. congruence.
    + rewrite (should_attempt_reset_none s L); cbn [fst].
      split; [|reflexivity]. intros _. right. left. reflexivity.
  - rewrite gate_not_open by congruence. cbn [fst].
    split; [left; discriminate | reflexivity].
Qed.

(** X9. A failed trial re-opens the circuit at once.  In a state reached
    by calls from a breaker constructed with a threshold of at least 1,
    when the circuit is not [CLOSED] and a call reaches the operation,
    which raises an instance of [Exception], the breaker ends [OPEN]
    with one more consecutive circuit break and one more failure: the
    threshold is not counted anew. *)
Theorem failed_trial_reopens
    (threshold base fixed max_exp : Z) (jitter : bool) (w : World)
    (history : list Callable') (func : Callable') :
  1 <= threshold ->
  0 <= max_exp ->
  let s := snd (call_all' history
                  {| self := init threshold base fixed max_exp jitter; env := w |}) in
  state (self s) <> CLOSED ->
  reaches' s = true ->
  always_fails is_Exception func ->
  let cb' := self (snd (call' func s)) in
  state cb' = OPEN /\
  consecutive_circuit_breaks cb' = consecutive_circuit_breaks (self s) + 1 /\
  failure_count cb' = failure_count (self s) + 1.
Proof.
  intros T _ s NC R AF cb'.
  assert (C : coherent (self s)).
  { apply (call_all_invariant coherent transition_coherent).
    split; [exact T|]. cbn. lia. }
  apply reaches_operation_eq in R.
  pose proof (call_entered_eq func s R) as CE. cbv zeta in CE.
  destruct (AF (env (snd (gate' s)))) as [e [Fe IE]].
  rewrite Fe, IE in CE. destruct CE as [_ CE]. unfold cb'. rewrite CE.
  destruct C as [_ C]. unfold failed_at.
  destruct (gate_entered s R) as [N|O].
  - destruct (state (self s)) eqn:S; try contradiction.
    destruct (Z.geb_spec (failure_count (self s) + 1) (failure_threshold (self s)));
      [|exfalso; lia].
    repeat split.
  - rewrite O in C. cbn [set_state failure_count failure_threshold state state_eqb
                         consecutive_circuit_breaks].
    destruct (Z.geb_spec (failure_count (self s) + 1) (failure_threshold (self s)));
      [|exfalso; lia].
    repeat split.
Qed.

Lemma invocations_nonneg (funcs : list Callable') :
  forall s, 0 <= invocations is_Exception Exception funcs s.
Proof.
  induction funcs as [|func rest IH]; intro s; cbn [invocations]; [lia|].
  specialize (IH (snd (call' func s))). destruct (reaches' s); lia.
Qed.

(** One failing call on a coherent breaker. *)
Lemma failing_call_coherent (func : Callable') (s : Sys) :
  coherent (self s) ->
  always_fails is_Exception func ->
  let cb := self s in
  let cb' := self (snd (call' func s)) in
  coherent cb' /\
  failure_threshold cb' = failure_threshold cb /\
  if reaches' s then
    failure_count cb' = failure_count cb + 1 /\
    match state cb with
    | CLOSED =>
        if failure_count cb + 1 >=? failure_threshold cb
        then state cb' = OPEN /\ consecutive_circuit_breaks cb' = 1
        else state cb' = CLOSED
    | OPEN | HALF_OPEN =>
        state cb' = OPEN /\
        consecutive_circuit_breaks cb' = consecutive_circuit_breaks cb + 1
    end
  else cb' = cb /\ state cb = OPEN.
Proof.
  intros C AF cb cb'.
  split; [apply (transition_coherent _ _ (call_transition func s) C)|].
  split; [apply eq_sym, (transition_same_config _ _ (call_transition func s))|].
  unfold reaches_operation. destruct (fst (gate' s)) as [e0|] eqn:G.
  - unfold cb'. rewrite call_eq, G; cbn [snd].
    pose proof (gate_self Exc Exception s) as GS. rewrite G in GS.
    split; [exact GS | apply (gate_rejects_open s e0 G)].
  - pose proof (call_entered_eq func s G) as CE. cbv zeta in CE.
    destruct (AF (env (snd (gate' s)))) as [e [Fe IE]].
    rewrite Fe, IE in CE. destruct CE as [_ CE]. unfold cb'. rewrite CE.
    destruct C as [_ C]. fold cb in C. unfold failed_at.
    destruct (gate_entered s G) as [N|O]; fold cb in N || fold cb in O; fold cb.
    + destruct (state cb) eqn:S; try contradiction.
      * destruct (failure_count cb + 1 >=? failure_threshold cb);
          cbn; rewrite ?S; repeat split.
      * destruct (Z.geb_spec (failure_count cb + 1) (failure_threshold cb));
          [|exfalso; lia].
        repeat split.
    + rewrite O in C |- *.
      cbn [set_state failure_count failure_threshold state state_eqb
           consecutive_circuit_breaks].
      destruct (Z.geb_spec (failure_count cb + 1) (failure_threshold cb));
        [|exfalso; lia].
      repeat split.
Qed.

(** The count of consecutive circuit breaks along a run of failing
    calls on a coherent breaker. *)
Lemma failing_calls_breaks (funcs : list Callable') :
  forall s,
    coherent (self s) ->
    Forall (always_fails is_Exception) funcs ->
    consecutive_circuit_breaks (self (snd (call_all' funcs s))) =
    match state (self s) with
    | CLOSED =>
        Z.max 0 (failure_count (self s) + invocations is_Exception Exception funcs s
                 - failure_threshold (self s) + 1)
    | OPEN | HALF_OPEN =>
        consecutive_circuit_breaks (self s)
        + invocations is_Exception Exception funcs s
    end.
Proof.
  induction funcs as [|func rest IH]; intros s C AF.
  - cbn [call_all ret snd invocations]. destruct C as [_ C].
    destruct (state (self s)); lia.
  - inversion AF as [|? ? AF1 AF2]; subst.
    destruct (failing_call_coherent func s C AF1) as [C' [Th H]].
    rewrite call_all_cons; cbn [snd invocations].
    rewrite (IH _ C' AF2).
    pose proof (invocations_nonneg rest (snd (call' func s))) as NN.
    destruct C as [_ C].
    destruct (reaches' s).
    + destruct H as [Fc H]. destruct (state (self s)).
      * destruct (Z.geb_spec (failure_count (self s) + 1) (failure_threshold (self s))).
        -- destruct H as [-> ->]. lia.
        -- rewrite H, Fc, Th. lia.
      * destruct H as [-> ->]. lia.
      * destruct H as [-> ->]. lia.
    + destruct H as [-> O]. rewrite O. lia.
Qed.

(** X10. The counters after a run of failures.  On a breaker
    constructed with a threshold [N] of at least 1, after a run of calls
    whose operation fails each time it is invoked, [m] of them reaching
    the operation, the failure count is [m] and the count of consecutive
    circuit breaks is [max 0 (m - N + 1)]: zero until the threshold is
    reached, then one more for every failed trial. *)
Theorem counters_after_failures
    (threshold base fixed max_exp : Z) (jitter : bool) (w : World)
    (funcs : list Callable') :
  1 <= threshold ->
  0 <= max_exp ->
  Forall (always_fails is_Exception) funcs ->
  let s0 := {| self := init threshold base fixed max_exp jitter; env := w |} in
  let m := invocations is_Exception Exception funcs s0 in
  failure_count (self (snd (call_all' funcs s0))) = m /\
  consecutive_circuit_breaks (self (snd (call_all' funcs s0)))
  = Z.max 0 (m - threshold + 1).
Proof.
  intros T _ AF s0 m.
  assert (C : coherent (self s0)) by (split; [exact T | cbn; lia]).
  split.
  - destruct (failing_calls_count Value Exc is_Exception Exception funcs s0 AF)
      as [_ Fc].
    rewrite Fc. reflexivity.
  - rewrite (failing_calls_breaks funcs s0 C AF). reflexivity.
Qed.

(** X11. Below the threshold the circuit stays closed.  On a [CLOSED]
    breaker, a run of failing calls that keeps the failure count below
    the threshold reaches the operation every time, counts every
    failure, and leaves the circuit [CLOSED] with the count of
    consecutive circuit breaks untouched. *)
Theorem failures_below_threshold_stay_closed (funcs : list Callable') :
  forall s,
    0 <= max_exponential_retries (self s) ->
    state (self s) = CLOSED ->
    failure_count (self s) + Z.of_nat (length funcs) < failure_threshold (self s) ->
    Forall (always_fails is_Exception) funcs ->
    let cb' := self (snd (call_all' funcs s)) in
    state cb' = CLOSED /\
    failure_count cb' = failure_count (self s) + Z.of_nat (length funcs) /\
    consecutive_circuit_breaks cb' = consecutive_circuit_breaks (self s) /\
    invocations is_Exception Exception funcs s = Z.of_nat (length funcs).
Proof.
  induction funcs as [|func rest IH]; intros s Mx C Len AF.
  - cbn. repeat split; [exact C | lia].
  - inversion AF as [|? ? AF1 AF2]; subst.
    assert (G : gate' s = (None, s)) by (apply gate_not_open; congruence).
    assert (G1 : fst (gate' s) = None) by (rewrite G; reflexivity).
    pose proof (call_entered_eq func s G1) as CE. cbv zeta in CE.
    destruct (AF1 (env (snd (gate' s)))) as [e [Fe IE]].
    rewrite Fe, IE in CE. destruct CE as [_ CE]. rewrite G in CE; cbn [snd] in CE.
    unfold failed_at in CE.
    cbn [length] in Len. rewrite Nat2Z.inj_succ in Len.
    destruct (Z.geb_spec (failure_count (self s) + 1) (failure_threshold (self s)));
      [exfalso; lia|].
    assert (S1 : state (self (snd (call' func s))) = CLOSED) by (rewrite CE; exact C).
    assert (F1 : failure_count (self (snd (call' func s))) = failure_count (self s) + 1)
      by (rewrite CE; reflexivity).
    assert (T1 : failure_threshold (self (snd (call' func s))) = failure_threshold (self s))
      by (rewrite CE; reflexivity).
    assert (K1 : consecutive_circuit_breaks (self (snd (call' func s)))
                 = consecutive_circuit_breaks (self s))
      by (rewrite CE; reflexivity).
    assert (M1 : 0 <= max_exponential_retries (self (snd (call' func s))))
      by (rewrite CE; exact Mx).
    destruct (IH (snd (call' func s)) M1 S1) as (A & B & D & E);
      [rewrite F1, T1; lia | exact AF2 |].
    rewrite call_all_cons; cbn [snd invocations length].
    unfold reaches_operation at 1. rewrite G1.
    rewrite A, B, D, E, F1, K1, Nat2Z.inj_succ. repeat split; lia.
Qed.

(** X12. Recovery from [OPEN].  When the reset check lets a call
    through on an [OPEN] breaker and the operation returns, the call
    returns that value and closes the circuit with both counters at 0;
    the last failure time stays recorded, and the recovery timeout is
    back at the base interval, with or without jitter. *)
Theorem successful_trial_closes
    (func : Callable') (s : Sys) (v : Value) (w' : World) :
  0 <= max_exponential_retries (self s) ->
  state (self s) = OPEN ->
  fst (_should_attempt_reset s) = true ->
  func (env (snd (_should_attempt_reset s))) = (Return v, w') ->
  let cb' := self (snd (call' func s)) in
  fst (call' func s) = Return v /\
  state cb' = CLOSED /\
  failure_count cb' = 0 /\
  consecutive_circuit_breaks cb' = 0 /\
  last_failure_time cb' = last_failure_time (self s) /\
  (forall w, recovery_timeout cb' w = base_interval_minutes (self s)).
Proof.
  intros _ O R F cb'.
  pose proof (gate_open Exc Exception s O) as G. cbv zeta in G. rewrite R in G.
  assert (G1 : fst (gate' s) = None) by (rewrite G; reflexivity).
  pose proof (call_entered_eq func s G1) as CE. cbv zeta in CE.
  rewrite G in CE; cbn [snd self env] in CE. rewrite F in CE; cbn [fst snd] in CE.
  unfold cb'. rewrite CE; cbn [fst snd self].
  repeat split.
Qed.

(** X13. [HALF_OPEN] does not outlive a trial.  After any sequence of
    calls on a breaker constructed with a threshold of at least 1, a
    further call leaves the breaker [HALF_OPEN] only if the operation
    raised an object that is not an instance of [Exception]. *)
Theorem half_open_only_after_escape
    (threshold base fixed max_exp : Z) (jitter : bool) (w : World)
    (history : list Callable') (func : Callable') :
  1 <= threshold ->
  0 <= max_exp ->
  let s := snd (call_all' history
                  {| self := init threshold base fixed max_exp jitter; env := w |}) in
  state (self (snd (call' func s))) = HALF_OPEN ->
  exists e, fst (call' func s) = Raise e /\ is_Exception e = false.
Proof.
  intros T _ s H.
  assert (C : coherent (self s)).
  { apply (call_all_invariant coherent transition_coherent).
    split; [exact T|]. cbn. lia. }
  destruct (fst (gate' s)) as [e0|] eqn:G.
  - exfalso. rewrite call_eq, G in H; cbn [snd] in H.
    pose proof (gate_self Exc Exception s) as GS. rewrite G in GS.
    rewrite GS, (gate_rejects_open s e0 G) in H. discriminate H.
  - pose proof (call_entered_eq func s G) as CE. cbv zeta in CE.
    destruct (entered_coherent _ _ (gate_entered s G) C) as [[_ C1] N1].
    destruct (fst (func (env (snd (gate' s))))) as [v|e].
    + exfalso. rewrite CE in H. discriminate H.
    + destruct CE as [CR CS]. exists e. split; [exact CR|].
      destruct (is_Exception e); [exfalso | reflexivity].
      rewrite CS in H. unfold failed_at in H.
      destruct (Z.geb_spec (failure_count (self (snd (gate' s))) + 1)
                           (failure_threshold (self (snd (gate' s))))) as [L|L];
        [discriminate H|].
      cbn [set_last_failure_time set_failure_count state] in H.
      rewrite H in C1. lia.
Qed.

(** X14. An object outside [Exception] bypasses the bookkeeping.  When a
    call reaches the operation and the operation raises an object that
    is not an instance of [Exception], the counters and the last failure
    time are left as they were, a breaker that was [OPEN] is left
    [HALF_OPEN], and the next call reaches the operation without any
    reset check. *)
Theorem escape_skips_bookkeeping
    (func : Callable') (s : Sys) (e : Exc) (w' : World) :
  0 <= max_exponential_retries (self s) ->
  reaches' s = true ->
  func (env (snd (gate' s))) = (Raise e, w') ->
  is_Exception e = false ->
  let s' := snd (call' func s) in
  failure_count (self s') = failure_count (self s) /\
  consecutive_circuit_breaks (self s') = consecutive_circuit_breaks (self s) /\
  last_failure_time (self s') = last_failure_time (self s) /\
  state (self s') = (if state_eqb (state (self s)) OPEN then HALF_OPEN
                     else state (self s)) /\
  reaches' s' = true /\
  gate' s' = (None, s').
Proof.
  intros _ R F IE s'. apply reaches_operation_eq in R.
  pose proof (call_entered_eq func s R) as CE. cbv zeta in CE.
  rewrite F in CE; cbn [fst snd] in CE. rewrite IE in CE. destruct CE as [_ CE].
  assert (S' : state (self s') = (if state_eqb (state (self s)) OPEN then HALF_OPEN
                                  else state (self s))).
  { unfold s'. rewrite CE. destruct (gate_entered s R) as [N|O].
    - destruct (state_eqb (state (self s)) OPEN) eqn:E; [|reflexivity].
      apply state_eqb_eq in E. contradiction.
    - rewrite O. reflexivity. }
  assert (NO : state (self s') <> OPEN).
  { rewrite S'. destruct (state (self s)); discriminate. }
  assert (G' : gate' s' = (None, s')) by (apply gate_not_open, NO).
  unfold s' at 1 2 3. rewrite CE.
  destruct (gate_entered s R) as [N|O]; cbn [set_state failure_count
    consecutive_circuit_breaks last_failure_time];
    (repeat split; [exact S' | apply reaches_operation_eq; rewrite G'; reflexivity
                   | exact G']).
Qed.

End Transitions.

(** ** The further properties on concrete inputs *)

Lemma calls_keep_configuration_witness :
  failure_threshold (self (sample_run (init 2 5 3 5 false) quiet_world [outage; healthy]))
  = 2.
Proof.
  apply (calls_keep_configuration unit string message_is_Exception message_Exception
           [outage; healthy] {| self := init 2 5 3 5 false; env := quiet_world |});
    vm_compute; discriminate.
Defined.

Lemma reachable_state_coherent_witness :
  1 <= consecutive_circuit_breaks
         (self (sample_run (init 1 5 3 5 false) quiet_world [outage])).
Proof.
  destruct (reachable_state_coherent unit string message_is_Exception message_Exception
              1 5 3 5 false quiet_world [outage]) as [_ H];
    [lia | lia |].
  apply H. vm_compute. discriminate.
Defined.

Lemma call_let_through_iff_witness :
  reaches_operation message_Exception (opened_at 60 360) = true.
Proof.
  apply (call_let_through_iff string message_Exception (opened_at 60 360));
    [vm_compute; discriminate|].
  right. right. exists 60%Q. split; [reflexivity | vm_compute; discriminate].
Defined.

Lemma failed_trial_reopens_witness :
  consecutive_circuit_breaks
    (self (snd (sample_call outage
                  (sample_run (init 1 5 3 5 false) (world_then 60 360) [outage]))))
  = consecutive_circuit_breaks
      (self (sample_run (init 1 5 3 5 false) (world_then 60 360) [outage])) + 1.
Proof.
  apply (failed_trial_reopens unit string message_is_Exception message_Exception
           1 5 3 5 false (world_then 60 360) [outage] outage);
    [lia | lia | vm_compute; discriminate | reflexivity | apply outage_always_fails].
Defined.

Lemma counters_after_failures_witness :
  consecutive_circuit_breaks
    (self (sample_run (init 2 5 3 5 false) (world_then 60 360) [outage; outage; outage]))
  = Z.max 0 (invocations message_is_Exception message_Exception
               [outage; outage; outage]
               {| self := init 2 5 3 5 false; env := world_then 60 360 |} - 2 + 1).
Proof.
  apply (counters_after_failures unit string message_is_Exception message_Exception
           2 5 3 5 false (world_then 60 360) [outage; outage; outage]);
    [lia | lia | repeat constructor; apply outage_always_fails].
Defined.

Lemma failures_below_threshold_stay_closed_witness :
  state (self (sample_run init_default quiet_world [outage; outage])) = CLOSED.
Proof.
  apply (failures_below_threshold_stay_closed unit string message_is_Exception
           message_Exception [outage; outage]
           {| self := init_default; env := quiet_world |});
    [vm_compute; discriminate | reflexivity | vm_compute; reflexivity
    | repeat constructor; apply outage_always_fails].
Defined.

Lemma successful_trial_closes_witness :
  state (self (snd (sample_call healthy (opened_at 60 360)))) = CLOSED.
Proof.
  apply (successful_trial_closes unit string message_is_Exception message_Exception
           healthy (opened_at 60 360) tt
           (env (snd (_should_attempt_reset (opened_at 60 360)))));
    [vm_compute; discriminate | reflexivity | reflexivity | reflexivity].
Defined.

Lemma half_open_only_after_escape_witness :
  exists e,
    fst (call named_is_Exception message_Exception interrupted
           (snd (call_all named_is_Exception message_Exception [outage]
                   {| self := init 1 5 3 5 false; env := world_then 60 360 |})))
    = Raise e /\ named_is_Exception e = false.
Proof.
  apply (half_open_only_after_escape unit string named_is_Exception message_Exception
           1 5 3 5 false (world_then 60 360) [outage] interrupted);
    [lia | lia | reflexivity].
Defined.

Lemma escape_skips_bookkeeping_witness :
  failure_count
    (self (snd (call named_is_Exception message_Exception interrupted
                  {| self := init_default; env := quiet_world |})))
  = failure_count init_default.
Proof.
  apply (escape_skips_bookkeeping unit string named_is_Exception message_Exception
           interrupted {| self := init_default; env := quiet_world |}
           "KeyboardInterrupt"%string quiet_world);
    [vm_compute; discriminate | reflexivity | reflexivity | reflexivity].
Defined.
